(** * Profiler service: session lifecycle, event polling and XEvent parsing

    A shallow embedding of [src/services/profilerService.ts] together with
    the properties of its event parser, its poll-and-merge step and its
    lifecycle operations.

    Conventions of the embedding.
    - A JavaScript string is a list of code units; code units are restricted
      to one byte ([ascii]), which covers the markup the parser keys on.
    - A JavaScript object used as a dictionary ([event.values]) and the
      [Map]s of the service are finite maps ([gmap]); a [Set] is a [gset].
    - The remote engine is an oracle: every query the service sends is
      appended to a log and the oracle answers from the log and the query.
    - An operation that throws returns [Thrown message] together with the
      state as left behind by the statements that ran before the throw.
    - Numbers are integers; where the code reads one from a text
      ([parseInt]) the integer is rounded to the nearest double. *)

From Stdlib Require Import Ascii ZArith.
From stdpp Require Import gmap strings list.

Abbreviation jstr := (list ascii).

(** ** JavaScript string primitives *)

Module Js.

Definition lit (s : string) : jstr := Stdlib.Strings.String.list_ascii_of_string s.

(** The double quote, kept apart so that no literal has to escape it. *)
Definition dq : ascii := "034"%char.

Definition ch_eqb (a b : ascii) : bool := Stdlib.Strings.Ascii.eqb a b.

(** [s.startsWith(p)] *)
Fixpoint starts_with (p s : jstr) : bool :=
  match p, s with
  | [], _ => true
  | a :: p', b :: s' => ch_eqb a b && starts_with p' s'
  | _ :: _, [] => false
  end.

(** [s.includes(p)] *)
Fixpoint includes (p s : jstr) : bool :=
  starts_with p s ||
  match s with
  | [] => false
  | _ :: s' => includes p s'
  end.

(** White space and line terminators of [String.prototype.trim] and of
    [parseInt], among one-byte code units: TAB, LF, VT, FF, CR, SP, NBSP. *)
Definition is_white (c : ascii) : bool :=
  let n := nat_of_ascii c in
  ((9 <=? n) && (n <=? 13)) || (n =? 32) || (n =? 160).

Fixpoint trim_start (s : jstr) : jstr :=
  match s with
  | c :: s' => if is_white c then trim_start s' else s
  | [] => []
  end.

Definition trim (s : jstr) : jstr :=
  rev (trim_start (rev (trim_start s))).

(** Value of a digit in the given radix. *)
Definition digit_val (radix : Z) (c : ascii) : option Z :=
  let n := Z.of_nat (nat_of_ascii c) in
  let v := (if (48 <=? n) && (n <=? 57) then n - 48
            else if (97 <=? n) && (n <=? 122) then n - 87
            else if (65 <=? n) && (n <=? 90) then n - 55
            else 36)%Z in
  if (v <? radix)%Z then Some v else None.

(** Longest prefix of digits, folded into its value; [None] when the
    prefix is empty. *)
Fixpoint digits (radix : Z) (acc : option Z) (s : jstr) : option Z :=
  match s with
  | c :: s' =>
      match digit_val radix c with
      | Some v => digits radix (Some (radix * default 0 acc + v)%Z) s'
      | None => acc
      end
  | [] => acc
  end.

(** A Number, as far as [parseInt] can return one: [NaN], an integer
    held exactly by a double, or an infinity. The zero stands for both
    zeros of JavaScript, which no test of the code tells apart. *)
Inductive number :=
| NaN
| Num (z : Z)
| Infinity (negative : bool).

(** The double nearest to an integer [v >= 0]: [v] itself below 2^53;
    above, the 53 leading bits of [v], rounded to nearest with ties to
    even; [None] when the rounding leaves the range of the doubles
    (the result is [Infinity] then). *)
Definition to_double (v : Z) : option Z :=
  if (v <? 2 ^ 53)%Z then Some v
  else
    let e := (Z.log2 v - 52)%Z in
    let q := Z.shiftr v e in
    let r := (v - Z.shiftl q e)%Z in
    let half := Z.shiftl 1 (e - 1) in
    let q' := if (r <? half)%Z then q
              else if (half <? r)%Z then (q + 1)%Z
              else if Z.even q then q else (q + 1)%Z in
    let w := Z.shiftl q' e in
    if (w <? 2 ^ 1024)%Z then Some w else None.

(** [parseInt(s)] without a radix argument: leading white space, an
    optional sign, an optional [0x]/[0X] prefix, then the longest run of
    digits; no digit gives [NaN]. The result is a double: the integer
    written, rounded to the nearest double when it has more than 53
    significant bits. *)
Definition parseInt (s : jstr) : number :=
  let s1 := trim_start s in
  let '(sign, s2) :=
    match s1 with
    | c :: r => if ch_eqb c "-" then ((-1)%Z, r)
                else if ch_eqb c "+" then (1%Z, r) else (1%Z, s1)
    | [] => (1%Z, s1)
    end in
  let '(radix, s3) :=
    match s2 with
    | z :: x :: r =>
        if ch_eqb z "0" && (ch_eqb x "x" || ch_eqb x "X") then (16%Z, r)
        else (10%Z, s2)
    | _ => (10%Z, s2)
    end in
  match digits radix None s3 with
  | Some v =>
      match to_double v with
      | Some w => Num (sign * w)%Z
      | None => Infinity (sign <? 0)%Z
      end
  | None => NaN
  end.

End Js.

(** ** The regular expressions of the parser

    Every pattern of [parseXEventData] is a sequence of literals and of
    quantified character classes: [[^c]+] (greedy, at least one), and
    [[^c]*?], [.*?] (flag [s]) or [[\s\S]*?] (lazy). The matcher below is
    the backtracking matcher of ECMAScript restricted to these forms: a
    greedy quantifier tries the longest run first, a lazy one the shortest,
    and the first alternative that lets the rest of the pattern match
    wins. *)

Module Regex.

Inductive cclass :=
| AnyChar                 (* [.] under flag [s], [[\s\S]] *)
| NotChar (c : ascii).    (* [[^c]] *)

Inductive item :=
| Lit (l : jstr)
| Plus (capture : bool) (c : cclass)       (* [C+] or [(C+)] *)
| LazyStar (capture : bool) (c : cclass).  (* [C*?] or [(C*?)] *)

Definition regex := list item.

Definition accepts (c : cclass) (a : ascii) : bool :=
  match c with
  | AnyChar => true
  | NotChar x => negb (Js.ch_eqb x a)
  end.

(** [Some rest] when [l] is a prefix of [s]. *)
Fixpoint strip (l s : jstr) : option jstr :=
  match l, s with
  | [], _ => Some s
  | a :: l', b :: s' => if Js.ch_eqb a b then strip l' s' else None
  | _ :: _, [] => None
  end.

Section Quantifiers.
Context {R : Type}.
Variable c : cclass.
Variable k : jstr -> option R.   (* the rest of the pattern *)

(** Greedy [C+]: take one more character while possible, give
    characters back one at a time when the rest fails. *)
Fixpoint plus_greedy (s : jstr) : option (jstr * R) :=
  match s with
  | a :: s' =>
      if accepts c a then
        match plus_greedy s' with
        | Some (w, r) => Some (a :: w, r)
        | None =>
            match k s' with
            | Some r => Some ([a], r)
            | None => None
            end
        end
      else None
  | [] => None
  end.

(** Lazy [C*?]: try the rest first, take one more character when it
    fails. *)
Fixpoint star_lazy (s : jstr) : option (jstr * R) :=
  match k s with
  | Some r => Some ([], r)
  | None =>
      match s with
      | a :: s' =>
          if accepts c a then
            match star_lazy s' with
            | Some (w, r) => Some (a :: w, r)
            | None => None
            end
          else None
      | [] => None
      end
  end.
End Quantifiers.

(** A text at which a run of class [c] must stop: its end, or a
    character outside the class. *)
Definition stop_of (c : cclass) (s : jstr) : bool :=
  match s with
  | [] => true
  | x :: _ => negb (accepts c x)
  end.

(** Match anchored at the start of [s]: the captures in order and the
    unconsumed rest. *)
Fixpoint rmatch (r : regex) (s : jstr) : option (list jstr * jstr) :=
  match r with
  | [] => Some ([], s)
  | Lit l :: r' =>
      match strip l s with
      | Some s' => rmatch r' s'
      | None => None
      end
  | Plus cap c :: r' =>
      match plus_greedy c (rmatch r') s with
      | Some (w, (caps, rest)) => Some (if cap then w :: caps else caps, rest)
      | None => None
      end
  | LazyStar cap c :: r' =>
      match star_lazy c (rmatch r') s with
      | Some (w, (caps, rest)) => Some (if cap then w :: caps else caps, rest)
      | None => None
      end
  end.

(** The match array of JavaScript: the matched text, then the captures. *)
Definition match_at (r : regex) (s : jstr) : option (list jstr) :=
  match rmatch r s with
  | Some (caps, rest) => Some (take (length s - length rest) s :: caps)
  | None => None
  end.

(** [s.match(r)] for a pattern without flag [g]: the leftmost match. *)
Fixpoint exec (r : regex) (s : jstr) : option (list jstr) :=
  match match_at r s with
  | Some m => Some m
  | None =>
      match s with
      | _ :: s' => exec r s'
      | [] => None
      end
  end.

(** [s.matchAll(r)] for a pattern with flag [g]: after a match the scan
    resumes at its end (one further when the match is empty). [skip]
    counts the characters that still belong to the previous match. *)
Fixpoint scan (r : regex) (skip : nat) (s : jstr) : list (list jstr) :=
  match skip with
  | S n =>
      match s with
      | _ :: s' => scan r n s'
      | [] => []
      end
  | O =>
      match match_at r s with
      | Some m =>
          m :: match s with
               | _ :: s' => scan r (length (hd [] m) - 1) s'
               | [] => []
               end
      | None =>
          match s with
          | _ :: s' => scan r 0 s'
          | [] => []
          end
      end
  end.

Definition matchAll (r : regex) (s : jstr) : list (list jstr) := scan r 0 s.

(** [s.match(r)] for a pattern with flag [g]: the matched texts, or
    [null] when there is none. *)
Definition match_g (r : regex) (s : jstr) : option (list jstr) :=
  match matchAll r s with
  | [] => None
  | ms => Some (hd [] <$> ms)
  end.

(** [m[i]] of a match array. *)
Definition group (i : nat) (m : list jstr) : jstr := nth i m [].

(** The texts a pattern matches, with the captures they give: the
    declarative reading of a pattern, without priorities. *)
Fixpoint denotes (r : regex) (m : jstr) (caps : list jstr) : Prop :=
  match r with
  | [] => m = [] /\ caps = []
  | Lit l :: r' => exists m', m = l ++ m' /\ denotes r' m' caps
  | Plus cap c :: r' =>
      exists w m' caps',
        m = w ++ m' /\ w <> [] /\ forallb (accepts c) w = true
        /\ denotes r' m' caps'
        /\ caps = (if cap then w :: caps' else caps')
  | LazyStar cap c :: r' =>
      exists w m' caps',
        m = w ++ m' /\ forallb (accepts c) w = true
        /\ denotes r' m' caps'
        /\ caps = (if cap then w :: caps' else caps')
  end.

End Regex.

(** ** Events and the parser [parseXEventData] *)

Record ProfilerEvent := {
  name : jstr;
  timestamp : jstr;
  values : gmap jstr jstr
}.

Module Parser.
Import Js Regex.

Definition OPEN : jstr := Eval cbv in lit "<event name=" ++ [dq].
Definition TS : jstr := Eval cbv in lit "timestamp=" ++ [dq].
Definition CLOSE : jstr := Eval cbv in lit "</event>".

Definition NotQuote : cclass := NotChar dq.
Definition NotGt : cclass := NotChar ">".

(** The patterns are quoted with [Q] standing for the double quote.

    [/<event name=Q([^Q]+)Q[^>]*?timestamp=Q([^Q]+)Q[^>]*?>(.*?)<\/event>/gs] *)
Definition eventRe : regex :=
  [ Lit OPEN; Plus true NotQuote; Lit [dq];
    LazyStar false NotGt; Lit TS; Plus true NotQuote; Lit [dq];
    LazyStar false NotGt; Lit (lit ">");
    LazyStar true AnyChar; Lit CLOSE ].

(** [/<event name=Q([^Q]+)Q/] *)
Definition nameRe : regex := [ Lit OPEN; Plus true NotQuote; Lit [dq] ].

(** [/timestamp=Q([^Q]+)Q/] *)
Definition timestampRe : regex := [ Lit TS; Plus true NotQuote; Lit [dq] ].

(** [/<TAG name=Q([^Q]+)Q[^>]*?>[\s\S]*?<SUB>([\s\S]*?)<\/SUB>/g], the
    shape shared by the data, action and text patterns. *)
Definition fieldRe (tag sub : string) : regex :=
  [ Lit (lit "<" ++ lit tag ++ lit " name=" ++ [dq]); Plus true NotQuote;
    Lit [dq]; LazyStar false NotGt; Lit (lit ">");
    LazyStar false AnyChar; Lit (lit "<" ++ lit sub ++ lit ">");
    LazyStar true AnyChar; Lit (lit "</" ++ lit sub ++ lit ">") ].

Definition dataRe : regex := Eval cbv in fieldRe "data" "value".
Definition actionRe : regex := Eval cbv in fieldRe "action" "value".
Definition textRe : regex := Eval cbv in fieldRe "data" "text".

(** [obj[k] = v] on a plain object: the key [__proto__] reaches the
    setter of [Object.prototype], which ignores a string. *)
Definition assign (k v : jstr) (o : gmap jstr jstr) : gmap jstr jstr :=
  if decide (k = lit "__proto__") then o else <[k := v]> o.

(** Truthiness of [obj[k]] for string values: present and not empty. *)
Definition truthy (o : option jstr) : bool :=
  match o with
  | Some (_ :: _) => true
  | _ => false
  end.

(** The two loops over data and action fields: [values[m[1]] = m[2].trim()]. *)
Definition store_fields (ms : list (list jstr)) (o : gmap jstr jstr)
  : gmap jstr jstr :=
  fold_left (fun acc m => assign (group 1 m) (trim (group 2 m)) acc) ms o.

(** The loop over text sub-values: [values[m[1] + '_text'] = m[2].trim()]. *)
Definition store_texts (ms : list (list jstr)) (o : gmap jstr jstr)
  : gmap jstr jstr :=
  fold_left
    (fun acc m => assign (group 1 m ++ lit "_text") (trim (group 2 m)) acc)
    ms o.

(** Fill [database_name] from [database_id] when the name is missing.
    The keys of the lookup table are the integer ids of the catalog, so
    an infinity is the key of no entry. *)
Definition resolve_database (databaseLookup : gmap Z jstr)
    (o : gmap jstr jstr) : gmap jstr jstr :=
  if negb (truthy (o !! lit "database_name"))
     && truthy (o !! lit "database_id")
  then
    match parseInt (default [] (o !! lit "database_id")) with
    | Num dbId =>
        match databaseLookup !! dbId with
        | Some nm => assign (lit "database_name") nm o
        | None => o
        end
    | NaN | Infinity _ => o
    end
  else o.

(** The body of the loop over the event matches: one matched text gives
    at most one event. *)
Definition parse_event (databaseLookup : gmap Z jstr) (m : jstr)
  : option ProfilerEvent :=
  match exec nameRe m, exec timestampRe m with
  | Some nameMatch, Some timestampMatch =>
      let v1 := store_fields (matchAll dataRe m) ∅ in
      let v2 := store_fields (matchAll actionRe m) v1 in
      let v3 := store_texts (matchAll textRe m) v2 in
      Some {| name := group 1 nameMatch;
              timestamp := group 1 timestampMatch;
              values := resolve_database databaseLookup v3 |}
  | _, _ => None
  end.

Definition parseXEventData (xmlData : jstr) (databaseLookup : gmap Z jstr)
  : list ProfilerEvent :=
  match match_g eventRe xmlData with
  | Some eventMatches => omap (parse_event databaseLookup) eventMatches
  | None => []
  end.

End Parser.

(** ** Sessions *)

Inductive SessionState := Stopped | Starting | Running | Stopping | Paused.

Global Instance SessionState_eq_dec : EqDecision SessionState.
Proof. solve_decision. Defined.

Inductive AuthenticationType := SqlLogin | Integrated.

Record ConnectionInfo := {
  ownerUri : jstr;
  serverName : jstr;
  databaseName : jstr;
  userName : jstr;
  password : jstr;
  authenticationType : AuthenticationType;
  isAzure : bool
}.

Record ProfilerSessionTemplate := {
  template_name : jstr;
  defaultView : jstr;
  createStatement : jstr
}.

Record ProfilerSession := {
  session_id : jstr;
  session_name : jstr;
  connection : ConnectionInfo;
  template : ProfilerSessionTemplate;
  state : SessionState;
  events : list ProfilerEvent;       (* newest first *)
  databaseLookup : gmap Z jstr;
  createdAt : Z;
  startedAt : option Z;
  stoppedAt : option Z
}.

Definition set_state (st : SessionState) (s : ProfilerSession) : ProfilerSession :=
  {| session_id := session_id s; session_name := session_name s;
     connection := connection s; template := template s;
     state := st; events := events s; databaseLookup := databaseLookup s;
     createdAt := createdAt s; startedAt := startedAt s;
     stoppedAt := stoppedAt s |}.

Definition set_events (evs : list ProfilerEvent) (s : ProfilerSession)
  : ProfilerSession :=
  {| session_id := session_id s; session_name := session_name s;
     connection := connection s; template := template s;
     state := state s; events := evs; databaseLookup := databaseLookup s;
     createdAt := createdAt s; startedAt := startedAt s;
     stoppedAt := stoppedAt s |}.

Definition set_startedAt (t : Z) (s : ProfilerSession) : ProfilerSession :=
  {| session_id := session_id s; session_name := session_name s;
     connection := connection s; template := template s;
     state := state s; events := events s; databaseLookup := databaseLookup s;
     createdAt := createdAt s; startedAt := Some t;
     stoppedAt := stoppedAt s |}.

Definition set_stoppedAt (t : Z) (s : ProfilerSession) : ProfilerSession :=
  {| session_id := session_id s; session_name := session_name s;
     connection := connection s; template := template s;
     state := state s; events := events s; databaseLookup := databaseLookup s;
     createdAt := createdAt s; startedAt := startedAt s;
     stoppedAt := Some t |}.

(** What a query gives back: an error with its optional message, or a
    result whose [recordset] may be missing; of a row only the column
    [event_data] is read, and it may be [NULL]. *)
Inductive QueryResult :=
| QueryFailed (message : option jstr)
| QueryDone (recordset : option (list (option jstr))).

(** ** One poll tick: [pollEvents] *)

Module Poll.
Import Parser.

(** [arr.slice(start)] for an integral [start]; [-0] is [0]. *)
Definition slice_from {A} (start : Z) (l : list A) : list A :=
  let len := Z.of_nat (length l) in
  let k := if (start <? 0)%Z then Z.max (len + start) 0
           else Z.min start len in
  drop (Z.to_nat k) l.

(** The merge of the freshly parsed events into the list of the session:
    filter by timestamp against the list, [unshift], cut to [maxEvents]. *)
Definition uniqueNewEvents (newEvents events : list ProfilerEvent)
  : list ProfilerEvent :=
  let existingTimestamps : gset jstr := list_to_set (timestamp <$> events) in
  filter (fun e => timestamp e ∉ existingTimestamps) newEvents.

Definition mergeEvents (maxEvents : Z) (newEvents events : list ProfilerEvent)
  : list ProfilerEvent :=
  let unique := uniqueNewEvents newEvents events in
  if 0 <? length unique then
    let events1 := unique ++ events in
    if (maxEvents <? Z.of_nat (length events1))%Z
    then slice_from (- maxEvents) events1
    else events1
  else events.

(** The payload a reply carries: the column of the first row, when the
    reply has rows and the column is a non-empty string. *)
Definition payload (reply : QueryResult) : option jstr :=
  match reply with
  | QueryDone (Some (Some (c :: xml) :: _)) => Some (c :: xml)
  | _ => None
  end.

(** The events parsed in a tick; none when the query failed or gave no
    payload. *)
Definition parsed (reply : QueryResult) (session : ProfilerSession)
  : list ProfilerEvent :=
  match payload reply with
  | Some xmlData => parseXEventData xmlData (databaseLookup session)
  | None => []
  end.

(** [pollEvents(session)], given the configured [maxEvents] and the reply
    of the engine to the retrieval query. A failed query is caught and
    logged; the session is left as it was. *)
Definition pollEvents (maxEvents : Z) (reply : QueryResult)
    (session : ProfilerSession) : ProfilerSession :=
  match payload reply with
  | Some xmlData =>
      let newEvents := parseXEventData xmlData (databaseLookup session) in
      set_events (mergeEvents maxEvents newEvents (events session)) session
  | None => session
  end.

(** A run of ticks, each with the cap in force and the reply received. *)
Definition run_ticks (ticks : list (Z * QueryResult))
    (session : ProfilerSession) : ProfilerSession :=
  fold_left (fun s t => pollEvents (fst t) (snd t) s) ticks session.

End Poll.

(** ** The service and its lifecycle operations *)

Inductive Outcome := Returned | Thrown (message : jstr).

Record Service := {
  activeSessions : gmap jstr ProfilerSession;
  pollingIntervals : gmap jstr nat;  (* session name to its timer handle *)
  timers : gmap nat jstr;            (* live timers and the session each polls *)
  nextTimer : nat;
  sent : list jstr                   (* queries sent so far, oldest first *)
}.

Module Lifecycle.
Import Js.

Definition with_sessions (m : gmap jstr ProfilerSession) (sv : Service)
  : Service :=
  {| activeSessions := m; pollingIntervals := pollingIntervals sv;
     timers := timers sv; nextTimer := nextTimer sv; sent := sent sv |}.

(** [error?.message || 'Unknown error'] *)
Definition message_of (m : option jstr) : jstr :=
  match m with
  | Some (c :: r) => c :: r
  | _ => lit "Unknown error"
  end.

Definition not_found (sessionName : jstr) : jstr :=
  lit "Session '" ++ sessionName ++ lit "' not found".

Definition scope (azure : bool) : jstr :=
  if azure then lit "DATABASE" else lit "SERVER".

Definition startSql (sessionName : jstr) (azure : bool) : jstr :=
  lit "ALTER EVENT SESSION [" ++ sessionName ++ lit "] ON " ++ scope azure
  ++ lit " STATE = START;".

Definition stopSql (sessionName : jstr) (azure : bool) : jstr :=
  lit "ALTER EVENT SESSION [" ++ sessionName ++ lit "] ON " ++ scope azure
  ++ lit " STATE = STOP;".

Definition dropSql (sessionName : jstr) (azure : bool) : jstr :=
  lit "DROP EVENT SESSION [" ++ sessionName ++ lit "] ON " ++ scope azure
  ++ lit ";".

(** [setInterval] and the bookkeeping of [startPolling]: a fresh timer,
    recorded under the name of the session (replacing, not clearing, a
    handle already there). *)
Definition startPolling (session : ProfilerSession) (sv : Service) : Service :=
  {| activeSessions := activeSessions sv;
     pollingIntervals := <[session_name session := nextTimer sv]> (pollingIntervals sv);
     timers := <[nextTimer sv := session_name session]> (timers sv);
     nextTimer := S (nextTimer sv);
     sent := sent sv |}.

Definition stopPolling (sessionName : jstr) (sv : Service) : Service :=
  match pollingIntervals sv !! sessionName with
  | Some interval =>
      {| activeSessions := activeSessions sv;
         pollingIntervals := delete sessionName (pollingIntervals sv);
         timers := delete interval (timers sv);
         nextTimer := nextTimer sv;
         sent := sent sv |}
  | None => sv
  end.

Section Remote.
(** The engine (and the connection to it): the reply to a query, given
    the queries sent before. *)
Variable remote : list jstr -> ConnectionInfo -> jstr -> QueryResult.

Definition executeQuery (conn : ConnectionInfo) (query : jstr) (sv : Service)
  : QueryResult * Service :=
  (remote (sent sv) conn query,
   {| activeSessions := activeSessions sv;
      pollingIntervals := pollingIntervals sv;
      timers := timers sv; nextTimer := nextTimer sv;
      sent := sent sv ++ [query] |}).

Definition startSession (now : Z) (sessionName : jstr) (sv : Service)
  : Outcome * Service :=
  match activeSessions sv !! sessionName with
  | None => (Thrown (not_found sessionName), sv)
  | Some session =>
      let '(reply, sv1) :=
        executeQuery (connection session)
          (startSql sessionName (isAzure (connection session))) sv in
      match reply with
      | QueryFailed m =>
          (Thrown (lit "Failed to start profiler session: " ++ message_of m),
           sv1)
      | QueryDone _ =>
          let session1 := set_startedAt now (set_state Running session) in
          (Returned,
           startPolling session1
             (with_sessions (<[sessionName := session1]> (activeSessions sv1))
                sv1))
      end
  end.

Definition pauseSession (sessionName : jstr) (sv : Service)
  : Outcome * Service :=
  match activeSessions sv !! sessionName with
  | None => (Thrown (not_found sessionName), sv)
  | Some session =>
      let sv1 := stopPolling sessionName sv in
      (Returned,
       with_sessions
         (<[sessionName := set_state Paused session]> (activeSessions sv1))
         sv1)
  end.

Definition resumeSession (sessionName : jstr) (sv : Service)
  : Outcome * Service :=
  match activeSessions sv !! sessionName with
  | None => (Thrown (not_found sessionName), sv)
  | Some session =>
      if decide (state session = Paused) then
        let session1 := set_state Running session in
        (Returned,
         startPolling session1
           (with_sessions (<[sessionName := session1]> (activeSessions sv))
              sv))
      else
        (Thrown (lit "Session '" ++ sessionName ++ lit "' is not paused"), sv)
  end.

Definition stopSession (now : Z) (sessionName : jstr) (sv : Service)
  : Outcome * Service :=
  match activeSessions sv !! sessionName with
  | None => (Thrown (not_found sessionName), sv)
  | Some session =>
      let sv1 := stopPolling sessionName sv in
      let '(reply, sv2) :=
        executeQuery (connection session)
          (stopSql sessionName (isAzure (connection session))) sv1 in
      match reply with
      | QueryFailed m =>
          (Thrown (lit "Failed to stop profiler session: " ++ message_of m),
           sv2)
      | QueryDone _ =>
          let session1 := set_stoppedAt now (set_state Stopped session) in
          (Returned,
           with_sessions (<[sessionName := session1]> (activeSessions sv2))
             sv2)
      end
  end.

Definition dropSession (now : Z) (sessionName : jstr) (sv : Service)
  : Outcome * Service :=
  match activeSessions sv !! sessionName with
  | None => (Thrown (not_found sessionName), sv)
  | Some session =>
      let '(stopped, sv1) :=
        if decide (state session = Running)
        then stopSession now sessionName sv
        else (Returned, sv) in
      match stopped with
      | Thrown m =>
          (Thrown (lit "Failed to drop profiler session: " ++ m), sv1)
      | Returned =>
          let '(reply, sv2) :=
            executeQuery (connection session)
              (dropSql sessionName (isAzure (connection session))) sv1 in
          match reply with
          | QueryFailed m =>
              (Thrown (lit "Failed to drop profiler session: "
                       ++ message_of m), sv2)
          | QueryDone _ =>
              (Returned,
               with_sessions (delete sessionName (activeSessions sv2)) sv2)
          end
      end
  end.
End Remote.

(** Whether a polling handle is recorded for a session. The timers
    themselves are in [timers]: a timer can be live without being the
    handle of its session. *)
Definition polling (sv : Service) (sessionName : jstr) : bool :=
  bool_decide (is_Some (pollingIntervals sv !! sessionName)).

End Lifecycle.

(** ** Payloads as sequences of event elements

    The payloads the statements about the parser range over: some leading
    text, then event elements, each followed by some text. An element has
    one of three shapes, according to its two attributes [name] and
    [timestamp]. *)

Module Markup.
Import Js Parser.

Inductive shape :=
| NameFirst        (* name, then timestamp: the shape the engine emits *)
| NoTimestamp      (* name only *)
| TimestampFirst.  (* timestamp, then name *)

Global Instance shape_eq_dec : EqDecision shape.
Proof. solve_decision. Defined.

Record element := {
  shape_of : shape;
  el_name : jstr;
  el_timestamp : jstr;
  el_attrs1 : jstr;   (* text of the tag after the first attribute *)
  el_attrs2 : jstr;   (* text of the tag after the second attribute *)
  el_body : jstr;
  el_after : jstr     (* text between this element and the next one *)
}.

Definition render (e : element) : jstr :=
  match shape_of e with
  | NameFirst =>
      OPEN ++ el_name e ++ [dq] ++ el_attrs1 e
      ++ TS ++ el_timestamp e ++ [dq] ++ el_attrs2 e
      ++ lit ">" ++ el_body e ++ CLOSE
  | NoTimestamp =>
      OPEN ++ el_name e ++ [dq] ++ el_attrs1 e
      ++ lit ">" ++ el_body e ++ CLOSE
  | TimestampFirst =>
      lit "<event " ++ TS ++ el_timestamp e ++ [dq] ++ el_attrs1 e
      ++ lit "name=" ++ [dq] ++ el_name e ++ [dq] ++ el_attrs2 e
      ++ lit ">" ++ el_body e ++ CLOSE
  end.

Definition payload_of (pre : jstr) (items : list element) : jstr :=
  pre ++ concat ((fun e => render e ++ el_after e) <$> items).

(** Whether an occurrence of [p] can begin in the last characters of a
    text that is followed by [y]: some proper, non-empty end of [p] begins
    [y]. *)
Definition straddles (p y : jstr) : bool :=
  existsb (fun k => starts_with (drop k p) y) (seq 1 (length p - 1)).

(** A text that is empty or begins with [<]. *)
Definition opens (y : jstr) : bool :=
  match y with
  | [] => true
  | c :: _ => ch_eqb "<" c
  end.

(** An attribute value: not empty, without a double quote. *)
Definition attr_value (v : jstr) : bool :=
  negb (bool_decide (v = [])) && forallb (fun c => negb (ch_eqb dq c)) v.

(** Text inside a tag: without [>]. *)
Definition tag_text (a : jstr) : bool :=
  forallb (fun c => negb (ch_eqb ">" c)) a.

(** Well-formedness of an element in its payload. For every shape: the
    name is an attribute value, and past its first character the element
    and the text after it contain no [<event name=Q] (elements are not
    nested). For an element with a timestamp, the timestamp is an
    attribute value. For the shape [NameFirst] moreover: the tag closes
    at the first [>] after the attributes, the text [timestamp=Q] does
    not occur before the timestamp attribute, and the body ends at the
    first [</event>]. For the shape [NoTimestamp]: the tag closes at the
    first [>] and the text [timestamp=Q] does not occur in it. *)
Definition well_formed (e : element) : bool :=
  attr_value (el_name e)
  && negb (includes OPEN (tail (render e ++ el_after e)))
  && match shape_of e with
     | NameFirst =>
         attr_value (el_timestamp e)
         && tag_text (el_attrs1 e) && tag_text (el_attrs2 e)
         && negb (includes TS (OPEN ++ el_name e ++ [dq] ++ el_attrs1 e))
         && negb (includes CLOSE (el_body e))
     | NoTimestamp =>
         tag_text (el_attrs1 e) && negb (includes TS (el_attrs1 e))
     | TimestampFirst => attr_value (el_timestamp e)
     end.

Definition recognised (e : element) : bool :=
  bool_decide (shape_of e = NameFirst).

(** The match array the event pattern gives on a recognised element. *)
Definition hit (e : element) : list jstr :=
  [render e; el_name e; el_timestamp e; el_body e].

(** What identifies an event: its class name and its timestamp. *)
Definition key (e : ProfilerEvent) : jstr * jstr := (name e, timestamp e).
Definition el_key (e : element) : jstr * jstr := (el_name e, el_timestamp e).

End Markup.

(** ** Concrete payloads and states used in the examples *)

Module Examples.
Import Js Parser Lifecycle.

(** Payload literals are written with ['] in place of the double quote. *)
Definition q (s : string) : jstr :=
  map (fun c => if ch_eqb c "'" then dq else c) (lit s).

Definition reply_of (xml : jstr) : QueryResult := QueryDone (Some [Some xml]).

Definition t1 : jstr := lit "2024-05-01T10:00:01.000Z".
Definition t2 : jstr := lit "2024-05-01T10:00:02.000Z".
Definition t3 : jstr := lit "2024-05-01T10:00:03.000Z".
Definition t4 : jstr := lit "2024-05-01T10:00:04.000Z".

Definition ring_two : jstr := q
  "<RingBufferTarget><event name='sql_batch_completed' package='sqlserver' timestamp='2024-05-01T10:00:01.000Z'></event><event name='rpc_completed' package='sqlserver' timestamp='2024-05-01T10:00:02.000Z'></event></RingBufferTarget>".

Definition ring_four : jstr := q
  "<RingBufferTarget><event name='sql_batch_completed' package='sqlserver' timestamp='2024-05-01T10:00:01.000Z'></event><event name='rpc_completed' package='sqlserver' timestamp='2024-05-01T10:00:02.000Z'></event><event name='sql_batch_completed' package='sqlserver' timestamp='2024-05-01T10:00:03.000Z'></event><event name='rpc_completed' package='sqlserver' timestamp='2024-05-01T10:00:04.000Z'></event></RingBufferTarget>".

(** Two events of different classes stamped with the same instant. *)
Definition ring_same_instant : jstr := q
  "<RingBufferTarget><event name='sql_batch_starting' package='sqlserver' timestamp='2024-05-01T10:00:01.000Z'></event><event name='sql_batch_completed' package='sqlserver' timestamp='2024-05-01T10:00:01.000Z'></event></RingBufferTarget>".

(** One event whose second field alone has a text sub-value. *)
Definition ring_text_other_field : jstr := q
  "<event name='rpc_completed' package='sqlserver' timestamp='2024-05-01T10:00:01.000Z'><data name='cpu_time'><value>0</value></data><data name='result'><value>0</value><text>OK</text></data></event>".

(** One event with a field [result] that has a text sub-value and a field
    whose own name is [result_text]. *)
Definition ring_text_collision : jstr := q
  "<event name='rpc_completed' package='sqlserver' timestamp='2024-05-01T10:00:01.000Z'><data name='result'><value>0</value><text>OK</text></data><data name='result_text'><value>primary</value></data></event>".

(** An event element whose timestamp attribute comes first. *)
Definition ring_timestamp_first : jstr := q
  "<RingBufferTarget><event timestamp='2024-05-01T10:00:01.000Z' name='sql_batch_completed' package='sqlserver'><data name='cpu_time'><value>0</value></data></event></RingBufferTarget>".

(** A payload of the engine, element by element: a completed batch, an
    element that lost its timestamp attribute, a completed call. *)
Definition ring_open : jstr := q "<RingBufferTarget truncated='0'>".


Definition untimed_element : Markup.element :=
  {| Markup.shape_of := Markup.NoTimestamp;
     Markup.el_name := lit "login";
     Markup.el_timestamp := [];
     Markup.el_attrs1 := q " package='sqlserver'";
     Markup.el_attrs2 := [];
     Markup.el_body := q "<data name='is_cached'><value>true</value></data>";
     Markup.el_after := [] |}.


(** An element with its timestamp attribute first. *)
Definition reversed_element : Markup.element :=
  {| Markup.shape_of := Markup.TimestampFirst;
     Markup.el_name := lit "sql_batch_completed";
     Markup.el_timestamp := t3;
     Markup.el_attrs1 := lit " ";
     Markup.el_attrs2 := q " package='sqlserver'";
     Markup.el_body := q "<data name='cpu_time'><value>0</value></data>";
     Markup.el_after := q "</RingBufferTarget>" |}.

Definition local_server : ConnectionInfo :=
  {| ownerUri := lit "conn-1"; serverName := lit "localhost";
     databaseName := lit "master"; userName := lit "sa";
     password := lit "secret"; authenticationType := SqlLogin;
     isAzure := false |}.

Definition standard : ProfilerSessionTemplate :=
  {| template_name := lit "Standard"; defaultView := lit "Standard View";
     createStatement := lit "CREATE EVENT SESSION [{sessionName}] ON SERVER" |}.

Definition session_in (st : SessionState) (evs : list ProfilerEvent)
  : ProfilerSession :=
  {| session_id := lit "s1"; session_name := lit "s1";
     connection := local_server; template := standard; state := st;
     events := evs; databaseLookup := ∅; createdAt := 0;
     startedAt := None; stoppedAt := None |}.

Definition kept : list ProfilerEvent :=
  [ {| name := lit "sql_batch_completed"; timestamp := t1; values := ∅ |} ].

(** A service with the one session [s1], not polled. *)
Definition idle_service (st : SessionState) : Service :=
  {| activeSessions := {[ lit "s1" := session_in st kept ]};
     pollingIntervals := ∅; timers := ∅; nextTimer := 0; sent := [] |}.

(** A service with the one session [s1], running and polled by timer 0. *)
Definition running_service : Service :=
  {| activeSessions := {[ lit "s1" := session_in Running kept ]};
     pollingIntervals := {[ lit "s1" := 0 ]};
     timers := {[ 0 := lit "s1" ]}; nextTimer := 1; sent := [] |}.

Definition engine_up : list jstr -> ConnectionInfo -> jstr -> QueryResult :=
  fun _ _ _ => QueryDone None.

Definition engine_down : list jstr -> ConnectionInfo -> jstr -> QueryResult :=
  fun _ _ _ => QueryFailed (Some (lit "Connection is closed.")).

(** An engine that stops a session but refuses to drop it. *)
Definition engine_no_drop : list jstr -> ConnectionInfo -> jstr -> QueryResult :=
  fun _ _ query =>
    if starts_with (lit "DROP") query
    then QueryFailed (Some (lit "Cannot drop."))
    else QueryDone None.

End Examples.

(** ** The rest of the service: creation, shutdown, and the callers *)

Module Creation.
Import Js Lifecycle.

Definition nl : ascii := "010"%char.

Definition PLACEHOLDER : jstr := Eval cbv in lit "{sessionName}".

(** [GetSubstitution] for a pattern without capture groups: in the
    replacement text [$$] is a dollar, [$&] the matched text, [$`] the text
    before the match and [$'] the text after it; every other [$] stands for
    itself. *)
Fixpoint substitution (matched before after repl : jstr) : jstr :=
  match repl with
  | [] => []
  | c :: r =>
      if ch_eqb c "$" then
        match r with
        | d :: r' =>
            if ch_eqb d "$" then "$"%char :: substitution matched before after r'
            else if ch_eqb d "&" then matched ++ substitution matched before after r'
            else if ch_eqb d "`" then before ++ substitution matched before after r'
            else if ch_eqb d "'" then after ++ substitution matched before after r'
            else c :: substitution matched before after r
        | [] => [c]
        end
      else c :: substitution matched before after r
  end.

(** [s.replace(/\{sessionName\}/g, repl)]: [seen] is the text already
    scanned, last character first; [skip] counts the characters that still
    belong to the occurrence just replaced. *)
Fixpoint replace_all (repl seen : jstr) (skip : nat) (s : jstr) : jstr :=
  match s with
  | [] => []
  | c :: s' =>
      match skip with
      | S k => replace_all repl (c :: seen) k s'
      | O =>
          if starts_with PLACEHOLDER s then
            substitution PLACEHOLDER (rev seen)
              (drop (length PLACEHOLDER) s) repl
            ++ replace_all repl (c :: seen) (length PLACEHOLDER - 1) s'
          else c :: replace_all repl (c :: seen) 0 s'
      end
  end.

(** The conditional drop that precedes the statement of the template. *)
Definition dropIfExists (sessionName : jstr) (azure : bool) : jstr :=
  [nl] ++ lit "IF EXISTS (" ++ [nl]
  ++ lit "    SELECT * FROM sys."
  ++ (if azure then lit "database" else lit "server")
  ++ lit "_event_sessions" ++ [nl]
  ++ lit "    WHERE name = '" ++ sessionName ++ lit "'" ++ [nl]
  ++ lit ")" ++ [nl]
  ++ lit "BEGIN" ++ [nl]
  ++ lit "    DROP EVENT SESSION [" ++ sessionName ++ lit "] ON "
  ++ scope azure ++ lit ";" ++ [nl]
  ++ lit "END" ++ [nl].

Definition buildCreateSessionSql (sessionName : jstr)
    (template : ProfilerSessionTemplate) (azure : bool) : jstr :=
  let sql := replace_all sessionName [] 0 (createStatement template) in
  dropIfExists sessionName azure ++ [nl] ++ sql.

Definition catalogSql : jstr :=
  lit "SELECT database_id, name FROM sys.databases;".

(** What the creation of a session gives back. *)
Inductive Created :=
| CreateDone (session : ProfilerSession)
| CreateThrown (message : jstr).

Section Remote.
Variable remote : list jstr -> ConnectionInfo -> jstr -> QueryResult.

(** The reply of the engine to the catalog query, whose rows carry the
    columns [database_id] and [name]: [None] when the query fails,
    [Some None] when the result has no recordset. *)
Variable catalog :
  list jstr -> ConnectionInfo -> option (option (list (Z * jstr))).

(** [fetchDatabaseList]: an error is caught and gives the empty table. *)
Definition fetchDatabaseList (conn : ConnectionInfo) (sv : Service)
  : gmap Z jstr * Service :=
  (match catalog (sent sv) conn with
   | Some (Some rows) =>
       fold_left (fun lookup row => <[row.1 := row.2]> lookup) rows ∅
   | _ => ∅
   end,
   {| activeSessions := activeSessions sv;
      pollingIntervals := pollingIntervals sv;
      timers := timers sv; nextTimer := nextTimer sv;
      sent := sent sv ++ [catalogSql] |}).

Definition createSession (now : Z) (conn : ConnectionInfo)
    (sessionName : jstr) (template : ProfilerSessionTemplate) (sv : Service)
  : Created * Service :=
  match activeSessions sv !! sessionName with
  | Some _ =>
      (CreateThrown (lit "Session '" ++ sessionName ++ lit "' already exists"),
       sv)
  | None =>
      let createSql := buildCreateSessionSql sessionName template (isAzure conn) in
      let '(reply, sv1) := executeQuery remote conn createSql sv in
      match reply with
      | QueryFailed m =>
          (CreateThrown (lit "Failed to create profiler session: "
                         ++ message_of m), sv1)
      | QueryDone _ =>
          let '(lookup, sv2) := fetchDatabaseList conn sv1 in
          let session :=
            {| session_id := sessionName; session_name := sessionName;
               connection := conn; template := template; state := Stopped;
               events := []; databaseLookup := lookup; createdAt := now;
               startedAt := None; stoppedAt := None |} in
          (CreateDone session,
           with_sessions (<[sessionName := session]> (activeSessions sv2)) sv2)
      end
  end.
End Remote.

(** [getSession] *)
Definition getSession (sessionName : jstr) (sv : Service)
  : option ProfilerSession :=
  activeSessions sv !! sessionName.

(** [dispose], for what it does to the sessions and to polling: every
    polling handle is stopped, then the registry is cleared. *)
Definition dispose (sv : Service) : Service :=
  with_sessions ∅
    (fold_left (fun acc sessionName => stopPolling sessionName acc)
       (map_to_list (pollingIntervals sv)).*1 sv).

End Creation.

(** ** The callers: the commands of the controller and the panel *)

Module Callers.
Import Lifecycle Creation.

(** [pauseProfilingCommand]: a toggle between pause and resume; an unknown
    name does nothing, and an error of the service is caught and shown. *)
Definition pauseProfilingCommand (sessionName : jstr) (sv : Service) : Service :=
  match getSession sessionName sv with
  | None => sv
  | Some session =>
      if decide (state session = Paused)
      then (resumeSession sessionName sv).2
      else (pauseSession sessionName sv).2
  end.

(** [handleClear] of the panel: the event list of the session is emptied. *)
Definition handleClear (session : ProfilerSession) : ProfilerSession :=
  set_events [] session.

End Callers.

(** ** Predicates used in the statements *)

Module Shape.
Import Js.

(** No white space at either end. *)
Definition trimmed (s : jstr) : bool :=
  match s with
  | [] => true
  | c :: _ => negb (is_white c) && negb (is_white (List.last s c))
  end.

(** [s.endsWith(p)] *)
Definition ends_with (p s : jstr) : bool := starts_with (rev p) (rev s).

(** Every registered session is registered under its own name, every
    polling handle is a live timer of its session, and the timer handles
    still to be given out are fresh. *)
Definition consistent (sv : Service) : Prop :=
  (forall n s, activeSessions sv !! n = Some s -> session_name s = n)
  /\ (forall n t, pollingIntervals sv !! n = Some t -> timers sv !! t = Some n)
  /\ (forall t n, timers sv !! t = Some n -> t < nextTimer sv).

End Shape.

(** ** Further payloads used in the examples *)

Module MoreExamples.
Import Js Parser Lifecycle Creation.

(** One event whose statement text spans lines and is padded with white
    space. *)
Definition ring_padded : jstr :=
  Examples.q "<event name='sql_batch_completed' package='sqlserver' timestamp='2024-05-01T10:00:01.000Z'><data name='batch_text'><value>  SELECT 1"
  ++ [nl] ++ Examples.q "FROM t  " ++ [nl]
  ++ Examples.q "</value></data></event>".

Definition padded_event : ProfilerEvent :=
  {| name := lit "sql_batch_completed"; timestamp := Examples.t1;
     values := {[ lit "batch_text" := lit "SELECT 1" ++ [nl] ++ lit "FROM t" ]} |}.

(** A catalog with two databases, and one that cannot be read. *)
Definition catalog_two
  : list jstr -> ConnectionInfo -> option (option (list (Z * jstr))) :=
  fun _ _ => Some (Some [(1%Z, lit "master"); (5%Z, lit "Sales")]).

Definition catalog_down
  : list jstr -> ConnectionInfo -> option (option (list (Z * jstr))) :=
  fun _ _ => None.

(** A template with two occurrences of the placeholder. *)
Definition two_places : ProfilerSessionTemplate :=
  {| template_name := lit "Standard"; defaultView := lit "Standard View";
     createStatement :=
       lit "CREATE EVENT SESSION [" ++ PLACEHOLDER
       ++ lit "] ON SERVER ADD EVENT sqlserver.sql_batch_completed -- "
       ++ PLACEHOLDER ++ lit " ;" |}.

End MoreExamples.

(** ** Event elements with their fields

    The body of an event element as the engine writes it: a sequence of
    data and action fields, each with a name attribute and a value. *)

Module Fields.
Import Js Regex Parser Markup.

Inductive field_kind := DataField | ActionField.

Global Instance field_kind_eq_dec : EqDecision field_kind.
Proof. solve_decision. Defined.

Definition DATA : jstr := Eval cbv in lit "<data name=" ++ [dq].
Definition ACTION : jstr := Eval cbv in lit "<action name=" ++ [dq].
Definition VALUE : jstr := Eval cbv in lit "<value>".
Definition VALUE_END : jstr := Eval cbv in lit "</value>".
Definition TEXT : jstr := Eval cbv in lit "<text>".

Definition open_of (k : field_kind) : jstr :=
  match k with DataField => DATA | ActionField => ACTION end.

Definition close_of (k : field_kind) : jstr :=
  match k with DataField => lit "</data>" | ActionField => lit "</action>" end.

Definition pattern_of (k : field_kind) : regex :=
  match k with DataField => dataRe | ActionField => actionRe end.

Record field := {
  f_kind : field_kind;
  f_name : jstr;
  f_attrs : jstr;   (* text of the tag after the name attribute *)
  f_pre : jstr;     (* between the tag and the value element *)
  f_value : jstr;
  f_post : jstr     (* between the value element and the closing tag *)
}.

Definition render_field (f : field) : jstr :=
  open_of (f_kind f) ++ f_name f ++ [dq] ++ f_attrs f ++ lit ">"
  ++ f_pre f ++ VALUE ++ f_value f ++ VALUE_END
  ++ f_post f ++ close_of (f_kind f).

(** The part of a field that the pattern of its kind matches, and the
    match array it gives. *)
Definition matched_text (f : field) : jstr :=
  open_of (f_kind f) ++ f_name f ++ [dq] ++ f_attrs f ++ lit ">"
  ++ f_pre f ++ VALUE ++ f_value f ++ VALUE_END.

Definition field_hit (f : field) : list jstr :=
  [matched_text f; f_name f; f_value f].

(** Well-formedness of a field: the name is an attribute value, the tag
    closes at the first [>], the value element is the first one after the
    tag and ends at the first [</value>], and past its first character the
    field contains no opening tag of a data or action field. *)
Definition field_ok (f : field) : bool :=
  attr_value (f_name f) && tag_text (f_attrs f)
  && negb (includes VALUE (f_pre f))
  && negb (includes VALUE_END (f_value f))
  && negb (includes DATA (tail (render_field f)))
  && negb (includes ACTION (tail (render_field f))).

(** The opening tag of an element of shape [NameFirst]. *)
Definition opening_tag (e : element) : jstr :=
  OPEN ++ el_name e ++ [dq] ++ el_attrs1 e
  ++ TS ++ el_timestamp e ++ [dq] ++ el_attrs2 e ++ lit ">".

(** An element of shape [NameFirst] whose body is the given sequence of
    well-formed fields, without text sub-values, and whose opening tag
    contains no opening tag of a field. *)
Definition fielded (e : element) (fs : list field) : bool :=
  bool_decide (el_body e = concat (render_field <$> fs))
  && forallb field_ok fs
  && negb (includes DATA (opening_tag e))
  && negb (includes ACTION (opening_tag e))
  && negb (includes TEXT (render e)).

(** An element together with the fields of its body; the fields matter for
    the elements the parser recognises only. *)
Definition item_ok (it : element * list field) : bool :=
  well_formed it.1 && (negb (recognised it.1) || fielded it.1 it.2).

(** What the two field loops store: for each field, in order, its trimmed
    value under its name. *)
Definition field_values (fs : list field) (o : gmap jstr jstr)
  : gmap jstr jstr :=
  fold_left (fun acc f => assign (f_name f) (trim (f_value f)) acc) fs o.

Definition of_kind (k : field_kind) (fs : list field) : list field :=
  filter (fun f => f_kind f = k) fs.

(** The event expected from an element and its fields. *)
Definition event_of (lookup : gmap Z jstr) (it : element * list field)
  : ProfilerEvent :=
  {| name := el_name it.1; timestamp := el_timestamp it.1;
     values :=
       resolve_database lookup
         (field_values (of_kind ActionField it.2)
            (field_values (of_kind DataField it.2) ∅)) |}.

End Fields.


(** ** Elements with fields used in the examples *)

Module FieldExamples.
Import Js Parser Fields.

Definition type_u32 : jstr :=
  Examples.q "<type name='uint32' package='package0' />".

(** A data field and an action field of the same name, and an action
    field with a padded value. *)
Definition id_data : field :=
  {| f_kind := DataField; f_name := lit "database_id"; f_attrs := [];
     f_pre := type_u32; f_value := lit " 4 "; f_post := [] |}.

Definition id_action : field :=
  {| f_kind := ActionField; f_name := lit "database_id";
     f_attrs := Examples.q " package='sqlserver'";
     f_pre := type_u32; f_value := lit "5"; f_post := [] |}.

Definition text_action : field :=
  {| f_kind := ActionField; f_name := lit "sql_text";
     f_attrs := Examples.q " package='sqlserver'";
     f_pre := []; f_value := lit "  SELECT 1 "; f_post := lit " " |}.

Definition batch_fields : list field := [id_action; id_data; text_action].

Definition fielded_element : Markup.element :=
  {| Markup.shape_of := Markup.NameFirst;
     Markup.el_name := lit "sql_batch_completed";
     Markup.el_timestamp := Examples.t1;
     Markup.el_attrs1 := Examples.q " package='sqlserver' ";
     Markup.el_attrs2 := [];
     Markup.el_body := concat (render_field <$> batch_fields);
     Markup.el_after := [] |}.

Definition fielded_items : list (Markup.element * list field) :=
  [(fielded_element, batch_fields); (Examples.untimed_element, [])].

Definition lookup_two : gmap Z jstr :=
  {[ 1%Z := lit "master"; 5%Z := lit "Sales" ]}.




(** A payload whose database id is too long for a double to hold. *)
Definition ring_long_id : jstr := Examples.q
  "<event name='sql_batch_completed' timestamp='2024-05-01T10:00:01.000Z'><action name='database_id'><value>9007199254740993</value></action></event>".

End FieldExamples.
(** * Properties *)

Import Js Regex Parser Poll Lifecycle.

(** ** The merge step *)

Section Merge.
Implicit Types (evs new : list ProfilerEvent) (cap : Z).

Lemma slice_from_sublist {A} (k : Z) (l : list A) : slice_from k l `sublist_of` l.
Proof. unfold slice_from. apply sublist_drop. Qed.

Lemma slice_last_length {A} (cap : Z) (l : list A) :
  (1 <= cap)%Z -> (cap < Z.of_nat (length l))%Z ->
  Z.of_nat (length (slice_from (- cap) l)) = cap.
Proof.
  intros Hc Hl. unfold slice_from.
  destruct (Z.ltb_spec (- cap) 0) as [_|]; [|lia].
  rewrite length_drop. lia.
Qed.

Lemma uniqueNewEvents_fresh new evs e :
  e ∈ uniqueNewEvents new evs -> timestamp e ∉ fmap timestamp evs.
Proof.
  unfold uniqueNewEvents. rewrite list_elem_of_filter.
  intros [Hn _] Hin. apply Hn. by apply elem_of_list_to_set.
Qed.

Lemma uniqueNewEvents_sublist new evs : uniqueNewEvents new evs `sublist_of` new.
Proof. apply sublist_filter. Qed.

Lemma mergeEvents_none cap new evs :
  uniqueNewEvents new evs = [] -> mergeEvents cap new evs = evs.
Proof. unfold mergeEvents. by intros ->. Qed.

Lemma mergeEvents_some cap new evs :
  uniqueNewEvents new evs <> [] ->
  mergeEvents cap new evs =
    let events1 := uniqueNewEvents new evs ++ evs in
    if (cap <? Z.of_nat (length events1))%Z
    then slice_from (- cap) events1 else events1.
Proof.
  unfold mergeEvents. destruct (uniqueNewEvents new evs); [done|]. done.
Qed.

Lemma mergeEvents_sublist cap new evs :
  mergeEvents cap new evs `sublist_of` uniqueNewEvents new evs ++ evs.
Proof.
  unfold mergeEvents.
  destruct (0 <? length (uniqueNewEvents new evs)).
  - cbv zeta. case_match; [apply slice_from_sublist | done].
  - by apply sublist_inserts_l.
Qed.

Lemma mergeEvents_length cap new evs :
  (1 <= cap)%Z -> uniqueNewEvents new evs <> [] ->
  (Z.of_nat (length (mergeEvents cap new evs)) <= cap)%Z.
Proof.
  intros Hc Hn. rewrite mergeEvents_some by done. cbv zeta.
  destruct (Z.ltb_spec cap (Z.of_nat (length (uniqueNewEvents new evs ++ evs)))).
  - by rewrite slice_last_length.
  - done.
Qed.

Lemma NoDup_fmap_sublist {A B} (f : A -> B) (l k : list A) :
  l `sublist_of` k -> NoDup (f <$> k) -> NoDup (f <$> l).
Proof.
  intros Hs Hk. eapply sublist_NoDup; [exact Hk|]. by apply fmap_sublist.
Qed.

Lemma mergeEvents_NoDup cap new evs :
  NoDup (fmap timestamp new) -> NoDup (fmap timestamp evs) ->
  NoDup (fmap timestamp (mergeEvents cap new evs)).
Proof.
  intros Hn He. eapply NoDup_fmap_sublist; [apply mergeEvents_sublist|].
  rewrite fmap_app. apply NoDup_app. split_and!.
  - eapply NoDup_fmap_sublist; [apply uniqueNewEvents_sublist | done].
  - intros t Ht. apply list_elem_of_fmap in Ht as (e & -> & He').
    by eapply uniqueNewEvents_fresh.
  - done.
Qed.

Lemma pollEvents_events cap reply (s : ProfilerSession) :
  events (pollEvents cap reply s) =
    mergeEvents cap (parsed reply s) (events s).
Proof.
  unfold pollEvents, parsed. destruct (payload reply); [done|].
  by rewrite mergeEvents_none.
Qed.

Lemma pollEvents_lookup cap reply (s : ProfilerSession) :
  databaseLookup (pollEvents cap reply s) = databaseLookup s.
Proof. unfold pollEvents. by destruct (payload reply). Qed.

Lemma parsed_lookup reply (s s' : ProfilerSession) :
  databaseLookup s' = databaseLookup s -> parsed reply s' = parsed reply s.
Proof. unfold parsed. by intros ->. Qed.
End Merge.

(** Once the list holds [cap] events, with [cap] at least 1, a tick changes
    nothing: the fresh events are put in front and the cut keeps the last
    [cap] elements. *)
Lemma mergeEvents_saturated (cap : Z) (new evs : list ProfilerEvent) :
  (1 <= cap)%Z -> Z.of_nat (length evs) = cap -> mergeEvents cap new evs = evs.
Proof.
  intros Hpos Hc. unfold mergeEvents.
  destruct (uniqueNewEvents new evs) as [|e u] eqn:Hu; [done|].
  cbn [length Nat.ltb Nat.leb]. cbv zeta.
  destruct (Z.ltb_spec cap (Z.of_nat (length ((e :: u) ++ evs)))) as [_|Hle].
  - unfold slice_from. rewrite length_app in *.
    destruct (Z.ltb_spec (- cap) 0) as [_|Hneg].
    + replace (Z.to_nat _) with (length (e :: u)) by lia.
      by rewrite drop_app_length.
    + lia.
  - rewrite length_app in Hle. simpl in Hle. lia.
Qed.

Lemma run_ticks_snoc ticks t (s : ProfilerSession) :
  run_ticks (ticks ++ [t]) s = pollEvents (fst t) (snd t) (run_ticks ticks s).
Proof. unfold run_ticks. by rewrite fold_left_app. Qed.

Lemma run_ticks_lookup ticks (s : ProfilerSession) :
  databaseLookup (run_ticks ticks s) = databaseLookup s.
Proof.
  induction ticks as [|t ticks IH] using rev_ind; [done|].
  by rewrite run_ticks_snoc, pollEvents_lookup.
Qed.

Lemma run_ticks_NoDup ticks (s : ProfilerSession) :
  NoDup (timestamp <$> events s) ->
  Forall (fun t => NoDup (timestamp <$> parsed (snd t) s)) ticks ->
  NoDup (timestamp <$> events (run_ticks ticks s)).
Proof.
  intros Hs. induction ticks as [|t ticks IH] using rev_ind; [done|].
  rewrite Forall_app, Forall_singleton. intros [Hticks Ht].
  rewrite run_ticks_snoc, pollEvents_events.
  apply mergeEvents_NoDup; [|by apply IH].
  erewrite parsed_lookup; [exact Ht|]. apply run_ticks_lookup.
Qed.

(** *** C1 *)

(** C1 (defect in the code). With a cap of 3, a first tick that brings the
    events stamped [t1], [t2] and a second tick that brings [t3], [t4] leave
    the list [t4; t1; t2]: the cut keeps the last three elements of the
    list, which after the prepend are the oldest ones, so the fresh event
    [t3] is dropped while both old events stay. The three most recent
    events by arrival are not the ones retained. *)
Theorem C1_cap_three_keeps_the_oldest :
  timestamp <$> events
    (run_ticks [(3%Z, Examples.reply_of Examples.ring_two);
                (3%Z, Examples.reply_of Examples.ring_four)]
       (Examples.session_in Running []))
  = [Examples.t4; Examples.t1; Examples.t2].
Proof. vm_compute. reflexivity. Qed.

(** *** C2 *)

(** C2 fails as stated: two events of one payload that carry the same
    timestamp are both added. *)
Lemma C2_same_instant_both_added :
  ~ NoDup (timestamp <$> events
             (run_ticks [(1000%Z, Examples.reply_of Examples.ring_same_instant)]
                (Examples.session_in Running []))).
Proof.
  assert (timestamp <$> events
            (run_ticks [(1000%Z, Examples.reply_of Examples.ring_same_instant)]
               (Examples.session_in Running []))
          = [Examples.t1; Examples.t1]) as -> by (vm_compute; reflexivity).
  intros Hnd. apply NoDup_cons in Hnd as [Hnot _]. apply Hnot. left.
Qed.

(** C2 (amended). Events are deduplicated against the list of the session
    only. Starting from the empty list, if the events parsed in each tick
    carry pairwise distinct timestamps, then after every run of ticks no
    two events of the list share a timestamp; and in the next tick a parsed
    event whose timestamp is that of an event already in the list is not
    among the events added. *)
Theorem C2_dedup_against_the_list ticks (s : ProfilerSession) :
  events s = [] ->
  Forall (fun t => NoDup (timestamp <$> parsed (snd t) s)) ticks ->
  NoDup (timestamp <$> events (run_ticks ticks s))
  /\ forall reply e,
       e ∈ parsed reply (run_ticks ticks s) ->
       timestamp e ∈ (timestamp <$> events (run_ticks ticks s)) ->
       e ∉ uniqueNewEvents (parsed reply (run_ticks ticks s))
             (events (run_ticks ticks s)).
Proof.
  intros He Hticks. split.
  - apply run_ticks_NoDup; [|done]. rewrite He. constructor.
  - intros reply e _ Hin Hadd. by apply uniqueNewEvents_fresh in Hadd.
Qed.

Lemma C2_dedup_witness :
  NoDup (timestamp <$> events
           (run_ticks [(3%Z, Examples.reply_of Examples.ring_two);
                       (3%Z, Examples.reply_of Examples.ring_four)]
              (Examples.session_in Running []))).
Proof.
  apply (C2_dedup_against_the_list
           [(3%Z, Examples.reply_of Examples.ring_two);
            (3%Z, Examples.reply_of Examples.ring_four)]
           (Examples.session_in Running [])).
  - reflexivity.
  - repeat (apply Forall_cons; split); [| |apply Forall_nil];
      apply (bool_decide_unpack _); vm_compute; exact I.
Defined.

(** A tick under a cap of at least 1 keeps a list that is within the cap
    within the cap. *)
Lemma pollEvents_keeps_bound cap reply (s : ProfilerSession) :
  (1 <= cap)%Z -> (Z.of_nat (length (events s)) <= cap)%Z ->
  (Z.of_nat (length (events (pollEvents cap reply s))) <= cap)%Z.
Proof.
  intros Hc Hlen. rewrite pollEvents_events.
  destruct (uniqueNewEvents (parsed reply s) (events s)) eqn:Hu.
  - by rewrite mergeEvents_none.
  - apply mergeEvents_length; [done|]. by rewrite Hu.
Qed.

(** *** C6 *)

(** C6 fails as stated: a tick that adds nothing does not cut. Four events
    collected under a cap of 1000 are all still there after a tick under a
    cap of 3 that brings no new event. *)
Lemma C6_lowered_cap_not_enforced :
  let s := run_ticks [(1000%Z, Examples.reply_of Examples.ring_four)]
             (Examples.session_in Running []) in
  ~ (Z.of_nat (length (events
        (pollEvents 3 (Examples.reply_of Examples.ring_four) s))) <= 3)%Z.
Proof. vm_compute. intros H. apply H. reflexivity. Qed.

(** C6 (amended). Under a cap of at least 1, the list is no longer than the
    cap after a tick whenever it was within the cap before the tick or the
    tick adds at least one new event; a tick that adds no new event leaves
    the list as it was. *)
Theorem C6_cap_enforced_when_adding cap reply (s : ProfilerSession) :
  (1 <= cap)%Z ->
  ((Z.of_nat (length (events s)) <= cap)%Z
   \/ uniqueNewEvents (parsed reply s) (events s) <> [] ->
     (Z.of_nat (length (events (pollEvents cap reply s))) <= cap)%Z)
  /\ (uniqueNewEvents (parsed reply s) (events s) = [] ->
        events (pollEvents cap reply s) = events s).
Proof.
  intros Hc. rewrite pollEvents_events. split.
  - intros [Hlen|Hnew]; [|by apply mergeEvents_length].
    rewrite <- pollEvents_events. by apply pollEvents_keeps_bound.
  - apply mergeEvents_none.
Qed.

Lemma C6_cap_witness :
  (Z.of_nat (length (events
     (pollEvents 3 (Examples.reply_of Examples.ring_four)
        (Examples.session_in Running [])))) <= 3)%Z.
Proof.
  apply (C6_cap_enforced_when_adding 3 (Examples.reply_of Examples.ring_four)
           (Examples.session_in Running [])).
  - lia.
  - right. vm_compute. discriminate.
Defined.

(** Under a cap that stays the same, at least 1, a list that starts within
    the cap stays within it through every run of ticks. *)
Lemma run_ticks_bounded cap ticks (s : ProfilerSession) :
  (1 <= cap)%Z -> (Z.of_nat (length (events s)) <= cap)%Z ->
  Forall (fun t => t.1 = cap) ticks ->
  (Z.of_nat (length (events (run_ticks ticks s))) <= cap)%Z.
Proof.
  intros Hc Hs. induction ticks as [|t ticks IH] using rev_ind; [done|].
  rewrite Forall_app, Forall_singleton. intros [Hticks Ht].
  rewrite run_ticks_snoc, Ht.
  apply pollEvents_keeps_bound; [done|]. by apply IH.
Qed.

(** With a cap of 0 the cut keeps the whole list: [slice(-0)] is
    [slice(0)]. *)
Example cap_zero_keeps_everything :
  length (events (pollEvents 0 (Examples.reply_of Examples.ring_two)
                    (Examples.session_in Running []))) = 2.
Proof. vm_compute. reflexivity. Qed.

(** ** Lifecycle operations *)

Section LifecycleFacts.
Variable remote : list jstr -> ConnectionInfo -> jstr -> QueryResult.
Implicit Types (sv : Service) (n : jstr) (s : ProfilerSession).

Lemma polling_stopPolling sv n : polling (stopPolling n sv) n = false.
Proof.
  unfold polling, stopPolling. apply bool_decide_eq_false. intros [t Ht].
  destruct (pollingIntervals sv !! n) eqn:E; simpl in Ht.
  - by rewrite lookup_delete_eq in Ht.
  - congruence.
Qed.

Lemma stopPolling_other sv n n' :
  n' <> n ->
  pollingIntervals (stopPolling n sv) !! n' = pollingIntervals sv !! n'.
Proof.
  intros Hne. unfold stopPolling.
  destruct (pollingIntervals sv !! n); [|done]. simpl.
  by rewrite lookup_delete_ne.
Qed.

Lemma stopPolling_sessions sv n :
  activeSessions (stopPolling n sv) = activeSessions sv.
Proof. unfold stopPolling. by destruct (pollingIntervals sv !! n). Qed.

Lemma stopPolling_sent sv n : sent (stopPolling n sv) = sent sv.
Proof. unfold stopPolling. by destruct (pollingIntervals sv !! n). Qed.

Lemma stopPolling_handles sv n :
  pollingIntervals (stopPolling n sv) = delete n (pollingIntervals sv).
Proof.
  unfold stopPolling. destruct (pollingIntervals sv !! n) eqn:E; [done|].
  symmetry. by apply delete_id.
Qed.

Lemma stopPolling_timers sv n :
  timers (stopPolling n sv)
  = match pollingIntervals sv !! n with
    | Some t => delete t (timers sv)
    | None => timers sv
    end.
Proof. unfold stopPolling. by destruct (pollingIntervals sv !! n). Qed.

(** When the handle of a session is its only live timer, [stopPolling]
    leaves no live timer of the session. *)
Lemma stopPolling_clears sv n :
  (forall t, timers sv !! t = Some n -> pollingIntervals sv !! n = Some t) ->
  forall t, timers (stopPolling n sv) !! t <> Some n.
Proof.
  intros Hsole t. rewrite stopPolling_timers.
  destruct (pollingIntervals sv !! n) as [t0|] eqn:E.
  - destruct (decide (t = t0)) as [->|Hne].
    + by rewrite lookup_delete_eq.
    + rewrite lookup_delete_ne by done. intros Ht.
      apply Hsole in Ht. congruence.
  - intros Ht. apply Hsole in Ht. congruence.
Qed.

Lemma polling_startPolling sv s :
  polling (startPolling s sv) (session_name s) = true.
Proof.
  unfold polling, startPolling. apply bool_decide_eq_true. simpl.
  rewrite lookup_insert_eq. by eexists.
Qed.

(** What a start does to a registered session, whatever its state. *)
Lemma startSession_registered now sv n s :
  activeSessions sv !! n = Some s ->
  let query := startSql n (isAzure (connection s)) in
  let r := startSession remote now n sv in
  sent r.2 = sent sv ++ [query]
  /\ match remote (sent sv) (connection s) query with
     | QueryDone _ =>
         r.1 = Returned
         /\ activeSessions r.2 !! n
            = Some (set_startedAt now (set_state Running s))
         /\ pollingIntervals r.2 !! session_name s = Some (nextTimer sv)
         /\ timers r.2 !! nextTimer sv = Some (session_name s)
         /\ pollingIntervals r.2
            = <[session_name s := nextTimer sv]> (pollingIntervals sv)
         /\ timers r.2 = <[nextTimer sv := session_name s]> (timers sv)
     | QueryFailed m =>
         r.1 = Thrown (lit "Failed to start profiler session: "
                       ++ message_of m)
         /\ activeSessions r.2 = activeSessions sv
         /\ pollingIntervals r.2 = pollingIntervals sv
         /\ timers r.2 = timers sv
     end.
Proof.
  intros Hs. cbv zeta. unfold startSession, executeQuery. rewrite Hs.
  destruct (remote _ _ _); simpl; [done|].
  split_and!; try done; by rewrite lookup_insert_eq.
Qed.

(** What a stop leaves behind when the engine refuses the command. *)
Lemma stopSession_failed now sv n s msg sv' :
  activeSessions sv !! n = Some s ->
  stopSession remote now n sv = (Thrown msg, sv') ->
  activeSessions sv' = activeSessions sv
  /\ polling sv' n = false
  /\ (forall n', n' <> n ->
        pollingIntervals sv' !! n' = pollingIntervals sv !! n')
  /\ sent sv' = sent sv ++ [stopSql n (isAzure (connection s))].
Proof.
  intros Hs. unfold stopSession, executeQuery. rewrite Hs.
  destruct (remote _ _ _); [|done]. intros [= _ <-]. simpl.
  split_and!.
  - apply stopPolling_sessions.
  - apply polling_stopPolling.
  - intros. by apply stopPolling_other.
  - by rewrite stopPolling_sent.
Qed.

Lemma stopSession_done now sv n s sv' :
  activeSessions sv !! n = Some s ->
  stopSession remote now n sv = (Returned, sv') ->
  activeSessions sv' = <[n := set_stoppedAt now (set_state Stopped s)]> (activeSessions sv)
  /\ polling sv' n = false.
Proof.
  intros Hs. unfold stopSession, executeQuery. rewrite Hs.
  destruct (remote _ _ _); [done|]. intros [= <-]. simpl.
  rewrite stopPolling_sessions. split; [done|]. apply polling_stopPolling.
Qed.
End LifecycleFacts.

(** *** C3 *)

(** C3 fails as stated: [startSession] does not look at the state. On a
    registered Running session whose engine accepts the command, the call
    returns normally and the start command has been sent. *)
Lemma C3_start_of_running_session_proceeds :
  let r := startSession Examples.engine_up 0 (lit "s1") Examples.running_service in
  state <$> (activeSessions Examples.running_service !! lit "s1") = Some Running
  /\ r.1 = Returned
  /\ sent Examples.running_service = []
  /\ sent r.2 = [lit "ALTER EVENT SESSION [s1] ON SERVER STATE = START;"].
Proof. vm_compute. done. Qed.

(** C3 (amended). For every registered session, whatever its state
    (Running included), [startSession] sends the start command. When the
    engine accepts it the call returns, the state is Running, the start
    time is recorded and polling is scheduled: a new timer is live for the
    session and is recorded as its polling handle, and every timer that
    was live stays live (a timer the session already had included). When
    the engine refuses it the call fails with the cause, and the registry,
    the polling handles and the timers are as before. *)
Theorem C3_start_sends_the_command_in_any_state
    (remote : list jstr -> ConnectionInfo -> jstr -> QueryResult)
    (now : Z) (sv : Service) (n : jstr) (s : ProfilerSession) :
  activeSessions sv !! n = Some s ->
  let query := startSql n (isAzure (connection s)) in
  let r := startSession remote now n sv in
  sent r.2 = sent sv ++ [query]
  /\ match remote (sent sv) (connection s) query with
     | QueryDone _ =>
         r.1 = Returned
         /\ activeSessions r.2 !! n
            = Some (set_startedAt now (set_state Running s))
         /\ pollingIntervals r.2 !! session_name s = Some (nextTimer sv)
         /\ timers r.2 !! nextTimer sv = Some (session_name s)
         /\ pollingIntervals r.2
            = <[session_name s := nextTimer sv]> (pollingIntervals sv)
         /\ timers r.2 = <[nextTimer sv := session_name s]> (timers sv)
     | QueryFailed m =>
         r.1 = Thrown (lit "Failed to start profiler session: " ++ message_of m)
         /\ activeSessions r.2 = activeSessions sv
         /\ pollingIntervals r.2 = pollingIntervals sv
         /\ timers r.2 = timers sv
     end.
Proof. apply startSession_registered. Qed.

Lemma C3_start_witness :
  sent (startSession Examples.engine_up 0 (lit "s1") Examples.running_service).2
  = sent Examples.running_service
    ++ [startSql (lit "s1")
          (isAzure (connection (Examples.session_in Running Examples.kept)))].
Proof.
  apply (C3_start_sends_the_command_in_any_state Examples.engine_up 0
           Examples.running_service (lit "s1")
           (Examples.session_in Running Examples.kept)).
  vm_compute. reflexivity.
Defined.

(** *** C5 *)

(** C5 fails as stated: [pauseSession] does not look at the state. On a
    registered Stopped session it returns normally and sets the state to
    Paused. *)
Lemma C5_pause_of_stopped_session_succeeds :
  let r := pauseSession (lit "s1") (Examples.idle_service Stopped) in
  state <$> (activeSessions (Examples.idle_service Stopped) !! lit "s1")
    = Some Stopped
  /\ r.1 = Returned
  /\ state <$> (activeSessions r.2 !! lit "s1") = Some Paused.
Proof. vm_compute. done. Qed.

(** C5 (amended). For every registered session, whatever its state,
    [pauseSession] returns normally: it sets the state to Paused, keeps
    the events, sends nothing to the engine, removes the polling handle of
    the session and clears the timer that was this handle; the other
    handles and timers are as before. When the handle was the only live
    timer of the session, no timer of the session is live afterwards (a
    timer that an earlier second start has left without a handle stays
    live). The call fails only for a name that is not registered. *)
Theorem C5_pause_succeeds_in_any_state (sv : Service) (n : jstr) :
  (forall s, activeSessions sv !! n = Some s ->
     let r := pauseSession n sv in
     r.1 = Returned
     /\ activeSessions r.2 !! n = Some (set_state Paused s)
     /\ polling r.2 n = false
     /\ sent r.2 = sent sv
     /\ pollingIntervals r.2 = delete n (pollingIntervals sv)
     /\ timers r.2 = match pollingIntervals sv !! n with
                     | Some t => delete t (timers sv)
                     | None => timers sv
                     end
     /\ ((forall t, timers sv !! t = Some n ->
                    pollingIntervals sv !! n = Some t) ->
         forall t, timers r.2 !! t <> Some n))
  /\ (activeSessions sv !! n = None ->
        pauseSession n sv = (Thrown (not_found n), sv)).
Proof.
  split.
  - intros s Hs. cbv zeta. unfold pauseSession. rewrite Hs.
    cbn [fst snd activeSessions pollingIntervals timers sent with_sessions].
    split_and!.
    + done.
    + by rewrite lookup_insert_eq.
    + apply polling_stopPolling.
    + apply stopPolling_sent.
    + apply stopPolling_handles.
    + apply stopPolling_timers.
    + apply stopPolling_clears.
  - intros Hn. unfold pauseSession. by rewrite Hn.
Qed.

Lemma C5_pause_witness :
  (pauseSession (lit "s1") (Examples.idle_service Stopped)).1 = Returned.
Proof.
  apply (proj1 (C5_pause_succeeds_in_any_state (Examples.idle_service Stopped)
                  (lit "s1"))
           (Examples.session_in Stopped Examples.kept)).
  vm_compute. reflexivity.
Defined.

(** *** C9 *)

(** C9. On a registered Running session, pause followed at once by resume:
    both calls return normally; the log of queries sent to the engine is
    the same after each of them (no remote command); after the pause the
    registry differs only in the state of the session, which is Paused,
    and the session is not polled; after the resume the registry is
    exactly the one before the pause (so the events collected are all
    there and the state is Running again) and the session is polled. *)
Theorem C9_pause_resume_is_local (sv : Service) (n : jstr) (s : ProfilerSession) :
  activeSessions sv !! n = Some s ->
  state s = Running ->
  let p := pauseSession n sv in
  let r := resumeSession n p.2 in
  p.1 = Returned /\ r.1 = Returned
  /\ sent p.2 = sent sv /\ sent r.2 = sent sv
  /\ activeSessions p.2 = <[n := set_state Paused s]> (activeSessions sv)
  /\ polling p.2 n = false
  /\ activeSessions r.2 = activeSessions sv
  /\ events <$> (activeSessions r.2 !! n) = Some (events s)
  /\ polling r.2 (session_name s) = true.
Proof.
  intros Hs Hrun. cbv zeta.
  assert (pauseSession n sv
          = (Returned,
             with_sessions (<[n := set_state Paused s]> (activeSessions sv))
               (stopPolling n sv))) as Hp.
  { unfold pauseSession. rewrite Hs. by rewrite stopPolling_sessions. }
  rewrite Hp. cbn [fst snd].
  assert (resumeSession n
            (with_sessions (<[n := set_state Paused s]> (activeSessions sv))
               (stopPolling n sv))
          = (Returned,
             startPolling (set_state Running (set_state Paused s))
               (with_sessions
                  (<[n := set_state Running (set_state Paused s)]>
                     (<[n := set_state Paused s]> (activeSessions sv)))
                  (with_sessions
                     (<[n := set_state Paused s]> (activeSessions sv))
                     (stopPolling n sv))))) as Hr.
  { unfold resumeSession. cbn [activeSessions with_sessions].
    rewrite lookup_insert_eq. by rewrite decide_True. }
  rewrite Hr. cbn [fst snd].
  assert (set_state Running (set_state Paused s) = s) as Hback.
  { destruct s. simpl in Hrun. by rewrite <- Hrun. }
  assert (<[n := set_state Running (set_state Paused s)]>
            (<[n := set_state Paused s]> (activeSessions sv))
          = activeSessions sv) as Hreg.
  { rewrite Hback, insert_insert_eq. by apply insert_id. }
  split_and!; try done.
  - cbn. apply stopPolling_sent.
  - cbn. apply stopPolling_sent.
  - apply polling_stopPolling.
  - cbn [activeSessions startPolling with_sessions]. by rewrite Hreg, Hs.
  - rewrite <- Hback at 2.
    apply (polling_startPolling _ (set_state Running (set_state Paused s))).
Qed.

Lemma C9_pause_resume_witness :
  sent (resumeSession (lit "s1")
          (pauseSession (lit "s1") Examples.running_service).2).2
  = sent Examples.running_service.
Proof.
  apply (C9_pause_resume_is_local Examples.running_service (lit "s1")
           (Examples.session_in Running Examples.kept));
    vm_compute; reflexivity.
Defined.

(** *** C4 *)

(** C4 fails as stated: [stopSession] stops the polling before it sends the
    command. When the engine then refuses the command, the session is still
    Running but no longer polled. *)
Lemma C4_failed_stop_has_stopped_polling :
  let r := stopSession Examples.engine_down 0 (lit "s1") Examples.running_service in
  r.1 = Thrown (lit "Failed to stop profiler session: Connection is closed.")
  /\ polling Examples.running_service (lit "s1") = true
  /\ polling r.2 (lit "s1") = false
  /\ state <$> (activeSessions r.2 !! lit "s1") = Some Running.
Proof. vm_compute. done. Qed.

(** C4 (amended). For every registered session and every lifecycle call
    that fails on it (the engine refused a command):
    - after a failed start, the registry (state, events, membership), the
      polling handles and the timers are as before;
    - after a failed stop, the registry is as before, but the polling
      handle of the session is removed and the timer that was this handle
      is cleared (no timer of the session is live when the handle was its
      only one); the handles of the other sessions are as before;
    - after a failed drop of a session that was not Running, the registry,
      the polling handles and the timers are as before;
    - after a failed drop of a session that was Running, the other sessions
      are as before, the handle of the session is removed and its timer
      cleared as by a stop, and the session is still registered with the
      events it had: unchanged and Running when it was the stop command
      that the engine refused (the drop command is not sent then), Stopped
      with its stop time recorded when the stop went through and the drop
      command was refused. *)
Theorem C4_what_a_failed_call_leaves
    (remote : list jstr -> ConnectionInfo -> jstr -> QueryResult)
    (now : Z) (sv : Service) (n : jstr) (s : ProfilerSession) :
  activeSessions sv !! n = Some s ->
  (forall msg sv', startSession remote now n sv = (Thrown msg, sv') ->
     activeSessions sv' = activeSessions sv
     /\ pollingIntervals sv' = pollingIntervals sv
     /\ timers sv' = timers sv)
  /\ (forall msg sv', stopSession remote now n sv = (Thrown msg, sv') ->
        activeSessions sv' = activeSessions sv
        /\ polling sv' n = false
        /\ (forall n', n' <> n ->
              pollingIntervals sv' !! n' = pollingIntervals sv !! n')
        /\ pollingIntervals sv' = delete n (pollingIntervals sv)
        /\ timers sv' = match pollingIntervals sv !! n with
                        | Some t => delete t (timers sv)
                        | None => timers sv
                        end
        /\ ((forall t, timers sv !! t = Some n ->
                       pollingIntervals sv !! n = Some t) ->
            forall t, timers sv' !! t <> Some n))
  /\ (forall msg sv', dropSession remote now n sv = (Thrown msg, sv') ->
        state s <> Running ->
        activeSessions sv' = activeSessions sv
        /\ pollingIntervals sv' = pollingIntervals sv
        /\ timers sv' = timers sv)
  /\ (forall msg sv', dropSession remote now n sv = (Thrown msg, sv') ->
        state s = Running ->
        (forall n', n' <> n -> activeSessions sv' !! n' = activeSessions sv !! n')
        /\ polling sv' n = false
        /\ pollingIntervals sv' = delete n (pollingIntervals sv)
        /\ timers sv' = match pollingIntervals sv !! n with
                        | Some t => delete t (timers sv)
                        | None => timers sv
                        end
        /\ exists s', activeSessions sv' !! n = Some s'
                      /\ events s' = events s
                      /\ (state s' = Running \/ state s' = Stopped)
                      /\ match remote (sent sv) (connection s)
                                 (stopSql n (isAzure (connection s))) with
                         | QueryFailed _ =>
                             s' = s /\ state s' = Running
                             /\ sent sv'
                                = sent sv ++ [stopSql n (isAzure (connection s))]
                         | QueryDone _ =>
                             s' = set_stoppedAt now (set_state Stopped s)
                             /\ state s' = Stopped
                             /\ sent sv'
                                = sent sv
                                  ++ [stopSql n (isAzure (connection s));
                                      dropSql n (isAzure (connection s))]
                         end).
Proof.
  intros Hs. split_and!.
  - intros msg sv' Hcall.
    pose proof (startSession_registered remote now sv n s Hs) as [_ Hst].
    cbv zeta in Hst. rewrite Hcall in Hst.
    destruct (remote _ _ _); [tauto|]. by destruct Hst as [[=] _].
  - intros msg sv' Hcall.
    destruct (stopSession_failed remote now sv n s msg sv' Hs Hcall)
      as (Hreg & Hpoll & Hother & _).
    split_and!; [done..| | |].
    + revert Hcall. unfold stopSession, executeQuery. rewrite Hs.
      destruct (remote _ _ _); [|done]. intros [= _ <-].
      apply stopPolling_handles.
    + revert Hcall. unfold stopSession, executeQuery. rewrite Hs.
      destruct (remote _ _ _); [|done]. intros [= _ <-].
      apply stopPolling_timers.
    + revert Hcall. unfold stopSession, executeQuery. rewrite Hs.
      destruct (remote _ _ _); [|done]. intros [= _ <-].
      apply stopPolling_clears.
  - intros msg sv' Hcall Hst. revert Hcall.
    unfold dropSession, executeQuery. rewrite Hs.
    rewrite decide_False by done.
    destruct (remote _ _ _); [|done]. by intros [= _ <-].
  - intros msg sv' Hcall Hrun. revert Hcall.
    unfold dropSession, stopSession, executeQuery.
    rewrite Hs. rewrite decide_True by done. rewrite stopPolling_sent.
    destruct (remote (sent sv) _ _) as [m|rs] eqn:Hstop.
    + intros [= _ <-].
      cbn [activeSessions pollingIntervals timers sent with_sessions].
      rewrite stopPolling_sessions.
      split_and!; [done|apply polling_stopPolling|apply stopPolling_handles
                  |apply stopPolling_timers|].
      exists s. split_and!; try done. left. exact Hrun.
    + cbn [sent activeSessions with_sessions].
      destruct (remote (sent sv ++ _) _ _) as [m|rs']; [|done].
      intros [= _ <-].
      cbn [activeSessions pollingIntervals timers sent with_sessions].
      rewrite stopPolling_sessions.
      split_and!.
      * intros n' Hne. by rewrite lookup_insert_ne.
      * apply polling_stopPolling.
      * apply stopPolling_handles.
      * apply stopPolling_timers.
      * eexists. split; [apply lookup_insert_eq|].
        split_and!; try done; [by right|]. by rewrite <- app_assoc.
Qed.

Lemma C4_failed_stop_witness :
  activeSessions
    (stopSession Examples.engine_down 0 (lit "s1") Examples.running_service).2
  = activeSessions Examples.running_service.
Proof.
  pose proof (C4_what_a_failed_call_leaves Examples.engine_down 0
                Examples.running_service (lit "s1")
                (Examples.session_in Running Examples.kept)) as H.
  destruct H as (_ & Hstop & _); [vm_compute; reflexivity|].
  eapply Hstop. vm_compute. reflexivity.
Defined.

(** A drop of a Running session that the engine refuses after the stop
    went through: the session stays registered, now Stopped and not
    polled, and both commands are in the log. *)
Example dropSession_refused_after_stop :
  let r := dropSession Examples.engine_no_drop 0 (lit "s1")
             Examples.running_service in
  r.1 = Thrown (lit "Failed to drop profiler session: Cannot drop.")
  /\ state <$> (activeSessions r.2 !! lit "s1") = Some Stopped
  /\ polling r.2 (lit "s1") = false
  /\ sent r.2 = [lit "ALTER EVENT SESSION [s1] ON SERVER STATE = STOP;";
                 lit "DROP EVENT SESSION [s1] ON SERVER;"].
Proof. vm_compute. done. Qed.

(** ** The matcher *)

Section Text.
Implicit Types (p l s t x y : jstr) (a b : ascii).

Lemma ch_eqb_eq a b : ch_eqb a b = true <-> a = b.
Proof. apply Stdlib.Strings.Ascii.eqb_eq. Qed.

Lemma ch_eqb_refl a : ch_eqb a a = true.
Proof. by apply ch_eqb_eq. Qed.

Lemma starts_with_head a l b s :
  ch_eqb a b = false -> starts_with (a :: l) (b :: s) = false.
Proof. intros H. simpl. by rewrite H. Qed.

Lemma strip_app l s : strip l (l ++ s) = Some s.
Proof. induction l as [|a l IH]; [done|]. simpl. by rewrite ch_eqb_refl. Qed.

Lemma strip_Some l s s' : strip l s = Some s' -> s = l ++ s'.
Proof.
  revert s. induction l as [|a l IH]; intros s; [by intros [= ->]|].
  destruct s as [|b s]; [done|]. simpl.
  destruct (ch_eqb a b) eqn:E; [|done]. apply ch_eqb_eq in E as ->.
  intros H. by rewrite (IH _ H).
Qed.

Lemma strip_None l s : starts_with l s = false -> strip l s = None.
Proof.
  revert s. induction l as [|a l IH]; intros s; [done|].
  destruct s as [|b s]; [done|]. simpl.
  destruct (ch_eqb a b); [apply IH|done].
Qed.

(** An occurrence that begins in [t] and is seen in [t ++ y] lies within
    [t] or runs over its end. *)
Lemma starts_with_app_split p t y :
  starts_with p (t ++ y) = true ->
  starts_with p t = true
  \/ (length t < length p /\ starts_with (drop (length t) p) y = true).
Proof.
  revert t. induction p as [|a p IH]; intros t; [by left|].
  destruct t as [|b t].
  - intros H. right. split; [simpl; lia|done].
  - simpl. intros [Hab H]%andb_prop. rewrite Hab. simpl.
    destruct (IH _ H) as [?|[? ?]]; [by left|right]. split; [lia|done].
Qed.

Lemma includes_suffix p x t :
  includes p x = false -> t `suffix_of` x -> starts_with p t = false.
Proof.
  intros Hx [k ->]. induction k as [|a k IH].
  - destruct t; simpl in Hx; by apply orb_false_elim in Hx as [? _].
  - apply IH. simpl in Hx. by apply orb_false_elim in Hx as [_ ?].
Qed.

Lemma includes_app_r p x y : includes p (x ++ y) = false -> includes p y = false.
Proof.
  induction x as [|a x IH]; [done|]. simpl.
  intros [_ H]%orb_false_elim. by apply IH.
Qed.

(** No occurrence of [p] begins in [x] when [x] is followed by [y]. *)
Lemma no_straddle p x y t :
  includes p x = false -> Markup.straddles p y = false ->
  t <> [] -> t `suffix_of` x -> starts_with p (t ++ y) = false.
Proof.
  intros Hx Hy Ht Hsuf.
  destruct (starts_with p (t ++ y)) eqn:E; [|done].
  apply starts_with_app_split in E as [E|[Hlen E]].
  - by rewrite (includes_suffix _ _ _ Hx Hsuf) in E.
  - assert (Markup.straddles p y = true) as Hs; [|congruence].
    apply existsb_exists. exists (length t). split; [|done].
    apply in_seq. destruct t; [done|]. simpl in *. lia.
Qed.
End Text.

Section Matcher.
Context {R : Type}.
Implicit Types (c : cclass) (k : jstr -> option R) (w s t : jstr).

Lemma plus_greedy_stop c k s : stop_of c s = true -> plus_greedy c k s = None.
Proof. destruct s as [|x s]; [done|]. simpl. by intros ->%negb_true_iff. Qed.

(** A run that is delimited, and that the rest of the pattern refuses to
    see shortened, is taken whole. *)
Lemma plus_greedy_delimited c k w s :
  w <> [] -> forallb (accepts c) w = true -> stop_of c s = true ->
  (forall t, t <> [] -> t `suffix_of` w -> t <> w -> k (t ++ s) = None) ->
  plus_greedy c k (w ++ s) = (fun r => (w, r)) <$> k s.
Proof.
  induction w as [|a w IH]; [done|]. intros _ Hacc Hstop Hk.
  simpl in Hacc. apply andb_prop in Hacc as [Ha Hw]. simpl. rewrite Ha.
  destruct w as [|b w].
  - simpl. rewrite plus_greedy_stop by done. by destruct (k s).
  - rewrite IH; [|done|done|done|].
    + destruct (k s) eqn:Hks; simpl; [done|].
      assert (k ((b :: w) ++ s) = None) as Hn.
      { apply Hk; [done|by apply suffix_cons_r|].
        intros H. apply (f_equal length) in H. simpl in H. lia. }
      simpl in Hn. by rewrite Hn.
    + intros t Ht Hsuf Hne. apply Hk; [done|by apply suffix_cons_r|].
      intros ->. apply suffix_length in Hsuf. simpl in Hsuf. lia.
Qed.

Lemma star_lazy_unfold c k s :
  star_lazy c k s =
    match k s with
    | Some r => Some ([], r)
    | None =>
        match s with
        | a :: s' =>
            if accepts c a then
              match star_lazy c k s' with
              | Some (w, r) => Some (a :: w, r)
              | None => None
              end
            else None
        | [] => None
        end
    end.
Proof. by destruct s. Qed.

(** The lazy run ends at the first place where the rest matches. *)
Lemma star_lazy_hit c k w s r :
  forallb (accepts c) w = true ->
  (forall t, t <> [] -> t `suffix_of` w -> k (t ++ s) = None) ->
  k s = Some r ->
  star_lazy c k (w ++ s) = Some (w, r).
Proof.
  intros Hacc Hk Hr. induction w as [|a w IH].
  - simpl. rewrite star_lazy_unfold. by rewrite Hr.
  - simpl in Hacc. apply andb_prop in Hacc as [Ha Hw].
    rewrite star_lazy_unfold. rewrite (Hk (a :: w)) by done.
    simpl. rewrite Ha. rewrite IH; [done|done|].
    intros t Ht Hsuf. apply Hk; [done|by apply suffix_cons_r].
Qed.

(** The lazy run fails when the rest matches nowhere up to the place
    where the run must stop. *)
Lemma star_lazy_miss c k w s :
  forallb (accepts c) w = true -> stop_of c s = true ->
  (forall t, t `suffix_of` w -> k (t ++ s) = None) ->
  star_lazy c k (w ++ s) = None.
Proof.
  intros Hacc Hstop Hk. induction w as [|a w IH].
  - simpl. rewrite star_lazy_unfold.
    pose proof (Hk [] (suffix_nil _)) as Hn. simpl in Hn. rewrite Hn.
    destruct s as [|x s]; [done|]. simpl in Hstop.
    by apply negb_true_iff in Hstop as ->.
  - simpl in Hacc. apply andb_prop in Hacc as [Ha Hw].
    rewrite star_lazy_unfold. rewrite (Hk (a :: w)) by done.
    simpl. rewrite Ha. rewrite IH; [done|done|].
    intros t Hsuf. apply Hk. by apply suffix_cons_r.
Qed.

Lemma plus_greedy_sound c k s w r :
  plus_greedy c k s = Some (w, r) ->
  w <> [] /\ forallb (accepts c) w = true
  /\ exists rest, s = w ++ rest /\ k rest = Some r.
Proof.
  revert w. induction s as [|a s IH]; intros w; [done|]. simpl.
  destruct (accepts c a) eqn:Ha; [|done].
  destruct (plus_greedy c k s) as [[w' r']|] eqn:Hp.
  - intros [= <- <-]. destruct (IH _ eq_refl) as (_ & Hw & rest & -> & Hr).
    split; [done|]. split; [simpl; by rewrite Ha|]. by exists rest.
  - destruct (k s) eqn:Hks; [|done]. intros [= <- <-].
    split; [done|]. split; [simpl; by rewrite Ha|]. by exists s.
Qed.

Lemma star_lazy_sound c k s w r :
  star_lazy c k s = Some (w, r) ->
  forallb (accepts c) w = true
  /\ exists rest, s = w ++ rest /\ k rest = Some r.
Proof.
  revert w. induction s as [|a s IH]; intros w; rewrite star_lazy_unfold.
  - destruct (k []) eqn:Hk; [|done]. intros [= <- <-]. split; [done|].
    by exists [].
  - destruct (k (a :: s)) eqn:Hk.
    + intros [= <- <-]. split; [done|]. by exists (a :: s).
    + destruct (accepts c a) eqn:Ha; [|done].
      destruct (star_lazy c k s) as [[w' r']|] eqn:Hp; [|done].
      intros [= <- <-]. destruct (IH _ eq_refl) as (Hw & rest & -> & Hr).
      split; [simpl; by rewrite Ha|]. by exists rest.
Qed.
End Matcher.

Section Patterns.
Implicit Types (r : regex) (c : cclass) (l m w s t x : jstr)
  (caps : list jstr).

Lemma rmatch_lit l r s : rmatch (Lit l :: r) (l ++ s) = rmatch r s.
Proof. simpl. by rewrite strip_app. Qed.

Lemma rmatch_lit_miss l r s :
  starts_with l s = false -> rmatch (Lit l :: r) s = None.
Proof. intros H. simpl. by rewrite strip_None. Qed.

Lemma rmatch_plus cap c r w s :
  w <> [] -> forallb (accepts c) w = true -> stop_of c s = true ->
  (forall t, t <> [] -> t `suffix_of` w -> t <> w -> rmatch r (t ++ s) = None) ->
  rmatch (Plus cap c :: r) (w ++ s) =
    match rmatch r s with
    | Some (caps, rest) => Some (if cap then w :: caps else caps, rest)
    | None => None
    end.
Proof.
  intros. simpl. rewrite plus_greedy_delimited by done.
  by destruct (rmatch r s) as [[??]|].
Qed.

Lemma rmatch_lazy_hit cap c r w s caps rest :
  forallb (accepts c) w = true ->
  (forall t, t <> [] -> t `suffix_of` w -> rmatch r (t ++ s) = None) ->
  rmatch r s = Some (caps, rest) ->
  rmatch (LazyStar cap c :: r) (w ++ s)
  = Some (if cap then w :: caps else caps, rest).
Proof. intros Hw Hk Hr. simpl. by rewrite (star_lazy_hit _ _ _ _ _ Hw Hk Hr). Qed.

Lemma rmatch_lazy_miss cap c r w s :
  forallb (accepts c) w = true -> stop_of c s = true ->
  (forall t, t `suffix_of` w -> rmatch r (t ++ s) = None) ->
  rmatch (LazyStar cap c :: r) (w ++ s) = None.
Proof. intros. simpl. by rewrite star_lazy_miss. Qed.

(** A quoted attribute value is captured whole. *)
Lemma rmatch_quoted cap r w s :
  Markup.attr_value w = true ->
  rmatch (Plus cap NotQuote :: Lit [dq] :: r) (w ++ dq :: s) =
    match rmatch r s with
    | Some (caps, rest) => Some (if cap then w :: caps else caps, rest)
    | None => None
    end.
Proof.
  unfold Markup.attr_value. intros [Hne Hw]%andb_prop.
  apply negb_true_iff, bool_decide_eq_false in Hne.
  rewrite rmatch_plus; [|done|done| |].
  - change (dq :: s) with ([dq] ++ s). by rewrite rmatch_lit.
  - reflexivity.
  - intros t Ht Hsuf _. apply rmatch_lit_miss.
    destruct t as [|a t]; [done|]. simpl.
    destruct Hsuf as [k ->]. rewrite forallb_app in Hw.
    apply andb_prop in Hw as [_ Hw]. simpl in Hw.
    apply andb_prop in Hw as [Ha _]. apply negb_true_iff in Ha.
    by rewrite Ha.
Qed.

Lemma rmatch_sound r s caps rest :
  rmatch r s = Some (caps, rest) -> exists m, s = m ++ rest /\ denotes r m caps.
Proof.
  revert s caps. induction r as [|[l|cap c|cap c] r IH]; intros s caps; simpl.
  - intros [= <- <-]. by exists [].
  - destruct (strip l s) as [s'|] eqn:Hl; [|done]. intros Hr.
    apply strip_Some in Hl as ->. destruct (IH _ _ Hr) as (m & -> & Hm).
    exists (l ++ m). split; [by rewrite app_assoc|]. by exists m.
  - destruct (plus_greedy c (rmatch r) s) as [[w [caps' rest']]|] eqn:Hp;
      [|done].
    intros [= <- <-].
    apply plus_greedy_sound in Hp as (Hne & Hw & s' & -> & Hr).
    destruct (IH _ _ Hr) as (m & -> & Hm).
    exists (w ++ m). split; [by rewrite app_assoc|].
    by exists w, m, caps'.
  - destruct (star_lazy c (rmatch r) s) as [[w [caps' rest']]|] eqn:Hp;
      [|done].
    intros [= <- <-].
    apply star_lazy_sound in Hp as (Hw & s' & -> & Hr).
    destruct (IH _ _ Hr) as (m & -> & Hm).
    exists (w ++ m). split; [by rewrite app_assoc|].
    by exists w, m, caps'.
Qed.

Lemma match_at_hit r m s caps :
  rmatch r (m ++ s) = Some (caps, s) -> match_at r (m ++ s) = Some (m :: caps).
Proof.
  intros H. unfold match_at. rewrite H. rewrite length_app.
  replace (length m + length s - length s) with (length m) by lia.
  by rewrite take_app_length.
Qed.

Lemma match_at_miss r s : rmatch r s = None -> match_at r s = None.
Proof. intros H. unfold match_at. by rewrite H. Qed.

Lemma match_at_sound r s mm :
  match_at r s = Some mm ->
  exists m caps rest, mm = m :: caps /\ s = m ++ rest /\ denotes r m caps.
Proof.
  unfold match_at. destruct (rmatch r s) as [[caps rest]|] eqn:H; [|done].
  intros [= <-]. destruct (rmatch_sound _ _ _ _ H) as (m & -> & Hm).
  exists m, caps, rest. split; [|done]. f_equal. rewrite length_app.
  replace (length m + length rest - length rest) with (length m) by lia.
  by rewrite take_app_length.
Qed.

Lemma scan_skip r x s : scan r (length x) (x ++ s) = scan r 0 s.
Proof. induction x as [|a x IH]; [done|]. simpl. apply IH. Qed.

Lemma scan_miss r x s :
  (forall t, t <> [] -> t `suffix_of` x -> rmatch r (t ++ s) = None) ->
  scan r 0 (x ++ s) = scan r 0 s.
Proof.
  induction x as [|a x IH]; [done|]. intros H.
  change (scan r 0 ((a :: x) ++ s)) with
    (match match_at r ((a :: x) ++ s) with
     | Some mm => mm :: scan r (length (hd [] mm) - 1) (x ++ s)
     | None => scan r 0 (x ++ s)
     end).
  rewrite match_at_miss by (by apply H). apply IH.
  intros t Ht Hsuf. apply H; [done|by apply suffix_cons_r].
Qed.

Lemma scan_hit r m s caps :
  m <> [] -> rmatch r (m ++ s) = Some (caps, s) ->
  scan r 0 (m ++ s) = (m :: caps) :: scan r 0 s.
Proof.
  intros Hm H. destruct m as [|a m]; [done|].
  change (scan r 0 ((a :: m) ++ s)) with
    (match match_at r ((a :: m) ++ s) with
     | Some mm => mm :: scan r (length (hd [] mm) - 1) (m ++ s)
     | None => scan r 0 (m ++ s)
     end).
  rewrite (match_at_hit _ _ _ _ H). simpl.
  rewrite Nat.sub_0_r. by rewrite scan_skip.
Qed.

Lemma scan_sound r n s mm :
  mm ∈ scan r n s ->
  exists pre s', s = pre ++ s' /\ match_at r s' = Some mm.
Proof.
  revert n. induction s as [|a s IH]; intros n.
  - destruct n; simpl; [|by intros ?%elem_of_nil].
    destruct (match_at r []) eqn:E; [|by intros ?%elem_of_nil].
    intros ->%list_elem_of_singleton. by exists [], [].
  - destruct n as [|n]; simpl.
    + destruct (match_at r (a :: s)) eqn:E.
      * intros [->|Hin]%elem_of_cons; [by exists [], (a :: s)|].
        destruct (IH _ Hin) as (pre & s' & -> & H).
        by exists (a :: pre), s'.
      * intros Hin. destruct (IH _ Hin) as (pre & s' & -> & H).
        by exists (a :: pre), s'.
    + intros Hin. destruct (IH _ Hin) as (pre & s' & -> & H).
      by exists (a :: pre), s'.
Qed.

Lemma exec_hit r s mm : match_at r s = Some mm -> exec r s = Some mm.
Proof. intros H. destruct s; simpl; by rewrite H. Qed.

Lemma exec_miss r x s :
  (forall t, t <> [] -> t `suffix_of` x -> rmatch r (t ++ s) = None) ->
  exec r (x ++ s) = exec r s.
Proof.
  induction x as [|a x IH]; [done|]. intros H.
  change (exec r ((a :: x) ++ s)) with
    (match match_at r ((a :: x) ++ s) with
     | Some mm => Some mm
     | None => exec r (x ++ s)
     end).
  rewrite match_at_miss by (by apply H). apply IH.
  intros t Ht Hsuf. apply H; [done|by apply suffix_cons_r].
Qed.
End Patterns.

(** ** The event pattern on well-formed payloads *)

Section EventPattern.
Import Markup.
Implicit Types (e : element) (z y : jstr).

Local Ltac split_bools :=
  repeat match goal with
    | H : _ && _ = true |- _ => apply andb_prop in H as [? ?]
    | H : negb _ = true |- _ => apply negb_true_iff in H
    end.

Lemma forallb_any w : forallb (accepts AnyChar) w = true.
Proof. by induction w. Qed.

Lemma straddles_OPEN y : opens y = true -> straddles OPEN y = false.
Proof.
  destruct y as [|c y]; [done|]. unfold opens. intros <-%ch_eqb_eq.
  reflexivity.
Qed.

Lemma tag_text_head a t k :
  tag_text (k ++ a :: t) = true -> ch_eqb ">" a = false.
Proof.
  unfold tag_text. rewrite forallb_app. intros [_ H]%andb_prop.
  simpl in H. apply andb_prop in H as [H _]. by apply negb_true_iff in H.
Qed.

Lemma well_formed_name_first e :
  well_formed e = true -> shape_of e = NameFirst ->
  attr_value (el_name e) = true /\ attr_value (el_timestamp e) = true
  /\ tag_text (el_attrs1 e) = true /\ tag_text (el_attrs2 e) = true
  /\ includes TS (OPEN ++ el_name e ++ [dq] ++ el_attrs1 e) = false
  /\ includes CLOSE (el_body e) = false.
Proof.
  unfold well_formed. intros Hwf Hs. rewrite Hs in Hwf. by split_bools.
Qed.

Lemma well_formed_no_timestamp e :
  well_formed e = true -> shape_of e = NoTimestamp ->
  attr_value (el_name e) = true
  /\ tag_text (el_attrs1 e) = true /\ includes TS (el_attrs1 e) = false.
Proof.
  unfold well_formed. intros Hwf Hs. rewrite Hs in Hwf. by split_bools.
Qed.

(** On an element of shape [NameFirst] the pattern matches the whole
    element and captures its name, its timestamp and its body. *)
Lemma eventRe_name_first e z :
  well_formed e = true -> shape_of e = NameFirst ->
  rmatch eventRe (render e ++ z)
  = Some ([el_name e; el_timestamp e; el_body e], z).
Proof.
  intros Hwf Hs.
  destruct (well_formed_name_first e Hwf Hs)
    as (Hn & Ht & Ha1 & Ha2 & Hts & Hcl).
  unfold render. rewrite Hs.
  repeat rewrite <- app_assoc. unfold eventRe.
  assert (rmatch [LazyStar true AnyChar; Lit CLOSE] (el_body e ++ CLOSE ++ z)
          = Some ([el_body e], z)) as K4.
  { apply (rmatch_lazy_hit true AnyChar [Lit CLOSE] _ _ [] z).
    - apply forallb_any.
    - intros t Hne Hsuf. apply rmatch_lit_miss.
      by apply (no_straddle CLOSE (el_body e)).
    - by rewrite rmatch_lit. }
  assert (rmatch [LazyStar false NotGt; Lit (lit ">");
                  LazyStar true AnyChar; Lit CLOSE]
            (el_attrs2 e ++ lit ">" ++ el_body e ++ CLOSE ++ z)
          = Some ([el_body e], z)) as K3.
  { apply (rmatch_lazy_hit false NotGt _ _ _ [el_body e] z).
    - exact Ha2.
    - intros t Hne [k Hk]. apply rmatch_lit_miss.
      destruct t as [|a t]; [done|].
      apply (starts_with_head ">"%char [] a).
      rewrite Hk in Ha2. by eapply tag_text_head.
    - by rewrite rmatch_lit. }
  assert (rmatch [LazyStar false NotGt; Lit TS; Plus true NotQuote; Lit [dq];
                  LazyStar false NotGt; Lit (lit ">");
                  LazyStar true AnyChar; Lit CLOSE]
            (el_attrs1 e ++ TS ++ el_timestamp e ++ [dq] ++ el_attrs2 e
             ++ lit ">" ++ el_body e ++ CLOSE ++ z)
          = Some ([el_timestamp e; el_body e], z)) as K1.
  { apply (rmatch_lazy_hit false NotGt _ _ _ [el_timestamp e; el_body e] z).
    - exact Ha1.
    - intros t Hne Hsuf. apply rmatch_lit_miss.
      apply (no_straddle TS (el_attrs1 e)); [|done..].
      apply (includes_app_r TS [dq]), (includes_app_r TS (el_name e)),
        (includes_app_r TS OPEN).
      exact Hts.
    - rewrite rmatch_lit. change ([dq] ++ ?x) with (dq :: x).
      rewrite rmatch_quoted by done. by rewrite K3. }
  rewrite rmatch_lit. change ([dq] ++ ?x) with (dq :: x).
  rewrite rmatch_quoted by done. by rewrite K1.
Qed.

(** On an element without a timestamp attribute the pattern fails. *)
Lemma eventRe_no_timestamp e z :
  well_formed e = true -> shape_of e = NoTimestamp ->
  rmatch eventRe (render e ++ z) = None.
Proof.
  intros Hwf Hs.
  destruct (well_formed_no_timestamp e Hwf Hs) as (Hn & Ha1 & Hts).
  unfold render. rewrite Hs.
  repeat rewrite <- app_assoc. unfold eventRe.
  rewrite rmatch_lit. change ([dq] ++ ?x) with (dq :: x).
  rewrite rmatch_quoted by done.
  rewrite rmatch_lazy_miss; [done|done|done|].
  intros t Hsuf. apply rmatch_lit_miss.
  destruct t as [|a t]; [done|].
  by apply (no_straddle TS (el_attrs1 e)).
Qed.

(** An element whose timestamp comes first does not begin like the
    pattern. *)
Lemma eventRe_timestamp_first e z :
  shape_of e = TimestampFirst -> rmatch eventRe (render e ++ z) = None.
Proof. unfold render. intros ->. by apply rmatch_lit_miss. Qed.

Lemma render_opens e y : opens (render e ++ y) = true.
Proof. unfold render. by destruct (shape_of e). Qed.

Lemma render_cons e : exists x, render e = "<"%char :: x.
Proof. unfold render. destruct (shape_of e); by eexists. Qed.
End EventPattern.

Section Payloads.
Import Markup.
Implicit Types (e : element) (items : list element) (y pre : jstr).

Local Ltac split_bools :=
  repeat match goal with
    | H : _ && _ = true |- _ => apply andb_prop in H as [? ?]
    | H : negb _ = true |- _ => apply negb_true_iff in H
    end.

Lemma well_formed_not_nested e :
  well_formed e = true -> includes OPEN (tail (render e ++ el_after e)) = false.
Proof. unfold well_formed. intros. by split_bools. Qed.

(** Past the first character of an element, and in the text after it, no
    match of the event pattern begins. *)
Lemma eventRe_inside e y t :
  well_formed e = true -> opens y = true ->
  t <> [] -> t `suffix_of` tail (render e ++ el_after e) ->
  rmatch eventRe (t ++ y) = None.
Proof.
  intros Hwf Hy Ht Hsuf. apply rmatch_lit_miss.
  eapply no_straddle; [by apply well_formed_not_nested|
                       by apply straddles_OPEN|done|done].
Qed.

(** The scan over one element and the text after it. *)
Lemma scan_element e y :
  well_formed e = true -> opens y = true ->
  scan eventRe 0 (render e ++ el_after e ++ y)
  = (if recognised e then [hit e] else []) ++ scan eventRe 0 y.
Proof.
  intros Hwf Hy. unfold recognised.
  destruct (render_cons e) as [x Hx].
  destruct (decide (shape_of e = NameFirst)) as [Hs|Hs].
  - rewrite bool_decide_eq_true_2 by done.
    rewrite (scan_hit eventRe (render e) _ [el_name e; el_timestamp e; el_body e]).
    + simpl. f_equal. apply scan_miss. intros t Ht Hsuf.
      apply (eventRe_inside e); [done..|].
      rewrite Hx. simpl. by apply suffix_app_r.
    + by rewrite Hx.
    + by apply eventRe_name_first.
  - rewrite bool_decide_eq_false_2 by done. simpl.
    rewrite app_assoc. apply scan_miss. intros t Ht Hsuf.
    rewrite Hx in Hsuf. simpl in Hsuf.
    destruct t as [|c t]; [done|].
    apply suffix_cons_inv in Hsuf as [[= -> ->]|Hsuf].
    + change (rmatch eventRe (("<"%char :: x ++ el_after e) ++ y) = None).
      rewrite app_comm_cons, <- Hx, <- app_assoc.
      destruct (shape_of e) eqn:E; [done| |].
      * by apply eventRe_no_timestamp.
      * by apply eventRe_timestamp_first.
    + apply (eventRe_inside e); [done..|]. by rewrite Hx.
Qed.

Lemma concat_opens items :
  opens (concat ((fun e => render e ++ el_after e) <$> items)) = true.
Proof.
  destruct items as [|e items]; [done|]. simpl.
  rewrite <- app_assoc. apply render_opens.
Qed.

Lemma scan_items items :
  Forall (fun e => well_formed e = true) items ->
  scan eventRe 0 (concat ((fun e => render e ++ el_after e) <$> items))
  = hit <$> filter (fun e => recognised e = true) items.
Proof.
  induction 1 as [|e items Hwf _ IH]; [done|].
  rewrite fmap_cons. cbn [concat]. rewrite <- app_assoc.
  rewrite scan_element; [|done|apply concat_opens].
  rewrite IH. rewrite filter_cons.
  destruct (recognised e); by rewrite ?decide_True, ?decide_False by done.
Qed.

Lemma matchAll_payload pre items :
  includes OPEN pre = false ->
  Forall (fun e => well_formed e = true) items ->
  matchAll eventRe (payload_of pre items)
  = hit <$> filter (fun e => recognised e = true) items.
Proof.
  intros Hpre Hitems. unfold matchAll, payload_of.
  rewrite scan_miss; [by apply scan_items|].
  intros t Ht Hsuf. apply rmatch_lit_miss.
  eapply no_straddle; [done|apply straddles_OPEN, concat_opens|done|done].
Qed.

Lemma exec_rmatch r s caps rest :
  rmatch r s = Some (caps, rest) -> exists m, exec r s = Some (m :: caps).
Proof.
  intros H. eexists. apply exec_hit. unfold match_at. by rewrite H.
Qed.

(** The event built from the matched text of a recognised element. *)
Lemma parse_event_name_first lookup e :
  well_formed e = true -> shape_of e = NameFirst ->
  exists v, parse_event lookup (render e)
            = Some {| name := el_name e; timestamp := el_timestamp e;
                      values := v |}.
Proof.
  intros Hwf Hs. unfold parse_event.
  destruct (well_formed_name_first e Hwf Hs)
    as (Hn & Ht & Ha1 & Ha2 & Hts & Hcl).
  assert (exists m, exec nameRe (render e) = Some [m; el_name e]) as [m1 ->].
  { unfold render. rewrite Hs. eapply exec_rmatch. unfold nameRe.
    rewrite rmatch_lit. change ([dq] ++ ?x) with (dq :: x).
    by rewrite rmatch_quoted by done. }
  assert (exists m, exec timestampRe (render e) = Some [m; el_timestamp e])
    as [m2 ->].
  { unfold render. rewrite Hs.
    replace (OPEN ++ el_name e ++ [dq] ++ el_attrs1 e ++ TS ++ el_timestamp e
             ++ [dq] ++ el_attrs2 e ++ lit ">" ++ el_body e ++ CLOSE)
      with ((OPEN ++ el_name e ++ [dq] ++ el_attrs1 e)
            ++ TS ++ el_timestamp e ++ dq
               :: el_attrs2 e ++ lit ">" ++ el_body e ++ CLOSE)
      by (by rewrite <- !app_assoc).
    rewrite exec_miss.
    - eapply exec_rmatch. unfold timestampRe.
      rewrite rmatch_lit. by rewrite rmatch_quoted by done.
    - intros t Hne Hsuf. apply rmatch_lit_miss.
      by apply (no_straddle TS (OPEN ++ el_name e ++ [dq] ++ el_attrs1 e)). }
  by eexists.
Qed.

Lemma parseXEventData_unfold xml lookup :
  parseXEventData xml lookup
  = omap (parse_event lookup) (hd [] <$> matchAll eventRe xml).
Proof.
  unfold parseXEventData, match_g. by destruct (matchAll eventRe xml).
Qed.

(** The parser on a payload of well-formed elements: one event for each
    element of shape [NameFirst], in the order of the payload, with the
    name and the timestamp of the element; nothing for the others. *)
Lemma parse_payload pre items lookup :
  includes OPEN pre = false ->
  Forall (fun e => well_formed e = true) items ->
  key <$> parseXEventData (payload_of pre items) lookup
  = el_key <$> filter (fun e => recognised e = true) items.
Proof.
  intros Hpre Hitems. rewrite parseXEventData_unfold, matchAll_payload by done.
  induction Hitems as [|e items Hwf _ IH]; [done|].
  rewrite filter_cons. destruct (recognised e) eqn:Hr.
  - rewrite decide_True by done. simpl.
    apply bool_decide_eq_true in Hr.
    destruct (parse_event_name_first lookup e Hwf Hr) as [v ->]. simpl.
    unfold key at 1, el_key at 1. simpl. f_equal. apply IH.
  - rewrite decide_False by done. apply IH.
Qed.
End Payloads.

(** ** The parser: C8, C10 *)

(** C8 (defect in the code). The pattern for text sub-values runs from the
    opening tag of a data field to the next [<text>], wherever that is, and
    the value is stored unconditionally.
    - In an event with the fields [cpu_time] (no text) and then [result]
      (text [OK]), the text is stored under [cpu_time_text], the key of the
      wrong field; nothing is stored under [result_text].
    - In an event with the field [result] (text [OK]) and a field named
      [result_text] with the primary value [primary], the primary value is
      set by the loop over the data fields and then overwritten by the
      text. *)
Theorem C8_text_sub_value_misfiled :
  (exists ev, parseXEventData Examples.ring_text_other_field ∅ = [ev]
     /\ values ev !! lit "cpu_time_text" = Some (lit "OK")
     /\ values ev !! lit "result_text" = None)
  /\ (let primary :=
        store_fields (matchAll dataRe Examples.ring_text_collision) ∅ in
      primary !! lit "result_text" = Some (lit "primary")
      /\ store_texts (matchAll textRe Examples.ring_text_collision) primary
           !! lit "result_text" = Some (lit "OK")
      /\ exists ev, parseXEventData Examples.ring_text_collision ∅ = [ev]
           /\ values ev !! lit "result_text" = Some (lit "OK")).
Proof.
  split.
  - eexists. split; [vm_compute; reflexivity|]. split; vm_compute; reflexivity.
  - cbv zeta. split; [vm_compute; reflexivity|].
    split; [vm_compute; reflexivity|].
    eexists. split; vm_compute; reflexivity.
Qed.

(** Every event the parser returns comes from a place of the payload where
    [<event name=Q] is followed by the name of the event, [Q], some text
    without [>] and then [timestamp=Q]. *)
Lemma parseXEventData_origin (xml : jstr) (lookup : gmap Z jstr)
    (ev : ProfilerEvent) :
  ev ∈ parseXEventData xml lookup ->
  exists pre mid post,
    xml = pre ++ OPEN ++ name ev ++ [dq] ++ mid ++ TS ++ post
    /\ Markup.tag_text mid = true.
Proof.
  rewrite parseXEventData_unfold. intros Hev.
  apply list_elem_of_omap in Hev as (m & Hm & Hpe).
  apply list_elem_of_fmap in Hm as (mm & -> & Hmm).
  apply scan_sound in Hmm as (pre & s' & -> & Hat).
  apply match_at_sound in Hat as (m & caps & rest & -> & -> & Hden).
  cbn [hd] in Hpe. unfold eventRe in Hden. cbn [denotes] in Hden.
  destruct Hden as (m1 & -> & w & m2 & c2 & -> & Hne & Hw & Hden & _).
  destruct Hden as (m3 & -> & w2 & m4 & c4 & -> & Hw2 & Hden & _).
  destruct Hden as (m5 & -> & _).
  assert (name ev = w) as ->.
  { revert Hpe. unfold parse_event.
    assert (exists x, exec nameRe (OPEN ++ w ++ [dq] ++ w2 ++ TS ++ m5)
                      = Some [x; w]) as [x ->].
    { eapply exec_rmatch. unfold nameRe. rewrite rmatch_lit.
      change ([dq] ++ ?y) with (dq :: y). rewrite rmatch_quoted; [done|].
      unfold Markup.attr_value. apply andb_true_intro.
      split; [by rewrite bool_decide_eq_false_2|exact Hw]. }
    destruct (exec timestampRe _); [|done]. by intros [= <-]. }
  exists pre, w2, (m5 ++ rest). split; [|done].
  by rewrite <- !app_assoc.
Qed.

(** C10. The parser recognises an event element only when its name
    attribute is the first attribute and its timestamp attribute follows
    in the same tag:
    - every event returned comes from a place of the payload where
      [<event name=Q], the name, [Q], some text without [>] and
      [timestamp=Q] follow one another;
    - on a payload of well-formed elements of the three shapes, the events
      returned are those of the elements with the name first, in order; an
      element whose timestamp attribute precedes its name attribute gives
      no event. *)
Theorem C10_name_attribute_must_come_first :
  (forall (xml : jstr) (lookup : gmap Z jstr) (ev : ProfilerEvent),
      ev ∈ parseXEventData xml lookup ->
      exists pre mid post,
        xml = pre ++ OPEN ++ name ev ++ [dq] ++ mid ++ TS ++ post
        /\ Markup.tag_text mid = true)
  /\ (forall (pre : jstr) (items : list Markup.element) (lookup : gmap Z jstr),
        includes OPEN pre = false ->
        Forall (fun e => Markup.well_formed e = true) items ->
        Markup.key <$> parseXEventData (Markup.payload_of pre items) lookup
        = Markup.el_key
            <$> filter (fun e => Markup.shape_of e = Markup.NameFirst) items).
Proof.
  split; [apply parseXEventData_origin|].
  intros pre items lookup Hpre Hitems. rewrite parse_payload by done.
  f_equal. clear Hitems. induction items as [|e items IH]; [done|].
  rewrite !filter_cons, IH. unfold Markup.recognised.
  destruct (decide (Markup.shape_of e = Markup.NameFirst)) as [Hs|Hs].
  - by rewrite bool_decide_eq_true_2, decide_True.
  - by rewrite bool_decide_eq_false_2, decide_False.
Qed.

Lemma C10_witness :
  Markup.key <$> parseXEventData
    (Markup.payload_of Examples.ring_open [Examples.reversed_element]) ∅
  = [].
Proof.
  apply (proj2 C10_name_attribute_must_come_first Examples.ring_open
           [Examples.reversed_element] ∅).
  - vm_compute. reflexivity.
  - apply Forall_cons. split; [vm_compute; reflexivity|by apply Forall_nil].
Defined.

(** The parser on a payload whose only element has its timestamp attribute
    first. *)
Example parse_timestamp_first :
  parseXEventData Examples.ring_timestamp_first ∅ = [].
Proof. vm_compute. reflexivity. Qed.

(** * Further properties of the service *)

Import Creation Callers Shape.

(** ** Parser: what every returned event satisfies *)

Section ParserFacts.
Implicit Types (xml m s : jstr) (lookup : gmap Z jstr) (ev : ProfilerEvent).

Lemma starts_with_self_app (l s : jstr) : starts_with l (l ++ s) = true.
Proof. induction l as [|a l IH]; [done|]. simpl. by rewrite ch_eqb_refl. Qed.

Lemma exec_sound (r : regex) s (mm : list jstr) :
  exec r s = Some mm ->
  exists pre s', s = pre ++ s' /\ match_at r s' = Some mm.
Proof.
  induction s as [|a s IH]; simpl.
  - destruct (match_at r []) eqn:E; [|done]. intros [= <-]. by exists [], [].
  - destruct (match_at r (a :: s)) eqn:E.
    + intros [= <-]. by exists [], (a :: s).
    + intros H. destruct (IH H) as (pre & s' & -> & Hm).
      by exists (a :: pre), s'.
Qed.

(** The first capture of a match of [Q-delimited value] patterns. *)
Lemma quoted_capture (l : jstr) s (mm : list jstr) :
  exec [Lit l; Plus true NotQuote; Lit [dq]] s = Some mm ->
  Markup.attr_value (group 1 mm) = true.
Proof.
  intros H. apply exec_sound in H as (pre & s' & -> & H).
  apply match_at_sound in H as (m & caps & rest & -> & -> & Hden).
  cbn [denotes] in Hden.
  destruct Hden as (m1 & -> & w & m2 & c2 & -> & Hne & Hw & Hden & ->).
  destruct Hden as (m3 & -> & -> & ->).
  unfold group. cbn [nth]. unfold Markup.attr_value.
  apply andb_true_intro. split; [by rewrite bool_decide_eq_false_2|exact Hw].
Qed.

Lemma parse_event_inv lookup m ev :
  parse_event lookup m = Some ev ->
  exists nameMatch timestampMatch,
    exec nameRe m = Some nameMatch
    /\ exec timestampRe m = Some timestampMatch
    /\ name ev = group 1 nameMatch
    /\ timestamp ev = group 1 timestampMatch
    /\ values ev =
         resolve_database lookup
           (store_texts (matchAll textRe m)
              (store_fields (matchAll actionRe m)
                 (store_fields (matchAll dataRe m) ∅))).
Proof.
  unfold parse_event.
  destruct (exec nameRe m) as [nm|]; [|done].
  destruct (exec timestampRe m) as [tm|]; [|done].
  intros [= <-]. by exists nm, tm.
Qed.

Lemma parseXEventData_elem xml lookup ev :
  ev ∈ parseXEventData xml lookup ->
  exists m, parse_event lookup m = Some ev.
Proof.
  rewrite parseXEventData_unfold. intros Hev.
  apply list_elem_of_omap in Hev as (m & _ & Hpe). by exists m.
Qed.
End ParserFacts.

(** X1. A payload in which the text [<event name=Q] does not occur (the
    empty payload among them) parses to no event. *)
Theorem parse_without_opening_tag (xml : jstr) (lookup : gmap Z jstr) :
  includes OPEN xml = false -> parseXEventData xml lookup = [].
Proof.
  intros Hx. rewrite parseXEventData_unfold. unfold matchAll.
  rewrite <- (app_nil_r xml). rewrite scan_miss; [done|].
  intros t Ht Hsuf. apply rmatch_lit_miss. rewrite app_nil_r.
  by apply (includes_suffix OPEN xml).
Qed.

Lemma parse_without_opening_tag_witness :
  parseXEventData Examples.ring_timestamp_first ∅ = [].
Proof.
  apply (parse_without_opening_tag Examples.ring_timestamp_first ∅).
  vm_compute. reflexivity.
Defined.

(** X2. Every event the parser returns has a name and a timestamp that are
    not empty and contain no double quote. *)
Theorem parsed_name_and_timestamp_are_attribute_values
    (xml : jstr) (lookup : gmap Z jstr) (ev : ProfilerEvent) :
  ev ∈ parseXEventData xml lookup ->
  Markup.attr_value (name ev) = true
  /\ Markup.attr_value (timestamp ev) = true.
Proof.
  intros Hev. apply parseXEventData_elem in Hev as (m & Hpe).
  apply parse_event_inv in Hpe as (nm & tm & Hn & Ht & -> & -> & _).
  split; eapply quoted_capture; eassumption.
Qed.

Lemma parsed_name_and_timestamp_witness :
  Markup.attr_value (lit "rpc_completed") = true
  /\ Markup.attr_value Examples.t1 = true.
Proof.
  apply (parsed_name_and_timestamp_are_attribute_values
           Examples.ring_text_other_field ∅
           {| name := lit "rpc_completed"; timestamp := Examples.t1;
              values := {[ lit "cpu_time" := lit "0";
                           lit "cpu_time_text" := lit "OK";
                           lit "result" := lit "0" ]} |}).
  vm_compute. left.
Defined.

(** ** Parser: the values stored *)

Section Values.
Implicit Types (o : gmap jstr jstr) (k v s : jstr) (ms : list (list jstr)).

Lemma trim_start_head s :
  match trim_start s with
  | [] => True
  | c :: _ => is_white c = false
  end.
Proof.
  induction s as [|c s IH]; [done|]. simpl.
  destruct (is_white c) eqn:E; [exact IH|exact E].
Qed.

Lemma trim_start_suffix s : trim_start s `suffix_of` s.
Proof.
  induction s as [|c s IH]; [done|]. simpl.
  destruct (is_white c); [by apply suffix_cons_r|done].
Qed.

Lemma trimmed_intro (l ini tl : jstr) (h c : ascii) :
  l = h :: tl -> l = ini ++ [c] ->
  is_white h = false -> is_white c = false -> trimmed l = true.
Proof.
  intros -> Hl Hh Hc. unfold trimmed. rewrite Hh, Hl, last_last.
  by rewrite Hc.
Qed.

Lemma trimmed_trim s : trimmed (trim s) = true.
Proof.
  unfold trim.
  pose proof (trim_start_head s) as Ha.
  pose proof (trim_start_head (rev (trim_start s))) as Hb.
  destruct (trim_start_suffix (rev (trim_start s))) as [k Hk].
  destruct (trim_start (rev (trim_start s))) as [|c0 b]; [done|].
  apply (f_equal (@rev ascii)) in Hk.
  rewrite rev_involutive, rev_app_distr in Hk. simpl in Hk.
  simpl. destruct (rev b ++ [c0]) as [|h tl] eqn:E.
  { by destruct (rev b). }
  rewrite Hk in Ha. simpl in Ha.
  rewrite <- E. by apply (trimmed_intro _ (rev b) tl h c0).
Qed.

Lemma assign_lookup k v o k' :
  assign k v o !! k' =
    if decide (k = lit "__proto__") then o !! k'
    else if decide (k = k') then Some v else o !! k'.
Proof.
  unfold assign. destruct (decide (k = lit "__proto__")); [done|].
  destruct (decide (k = k')) as [->|Hne].
  - by rewrite lookup_insert_eq.
  - by rewrite lookup_insert_ne.
Qed.

Lemma store_fields_trimmed ms o :
  map_Forall (fun _ v => trimmed v = true) o ->
  map_Forall (fun _ v => trimmed v = true) (store_fields ms o).
Proof.
  unfold store_fields. revert o. induction ms as [|m ms IH]; intros o Ho; [done|].
  simpl. apply IH. intros k v. rewrite assign_lookup.
  repeat case_decide; [by apply Ho| |by apply Ho].
  intros [= <-]. apply trimmed_trim.
Qed.

Lemma store_texts_trimmed ms o :
  map_Forall (fun _ v => trimmed v = true) o ->
  map_Forall (fun _ v => trimmed v = true) (store_texts ms o).
Proof.
  unfold store_texts. revert o. induction ms as [|m ms IH]; intros o Ho; [done|].
  simpl. apply IH. intros k v. rewrite assign_lookup.
  repeat case_decide; [by apply Ho| |by apply Ho].
  intros [= <-]. apply trimmed_trim.
Qed.

Lemma resolve_database_other lookup o k :
  k <> lit "database_name" -> resolve_database lookup o !! k = o !! k.
Proof.
  intros Hk. unfold resolve_database.
  destruct (_ && _); [|done].
  destruct (parseInt _) as [|dbId|neg]; [done| |done].
  destruct (lookup !! dbId) as [nm|]; [|done].
  rewrite assign_lookup. repeat case_decide; congruence.
Qed.

Lemma ends_with_app p x : ends_with p (x ++ p) = true.
Proof. unfold ends_with. rewrite rev_app_distr. apply starts_with_self_app. Qed.
End Values.

(** X3. White space around every extracted value is trimmed: in every event
    the parser returns, every value has no white space at either end,
    except possibly the database name filled in from the lookup table. *)
Theorem parsed_values_are_trimmed
    (xml : jstr) (lookup : gmap Z jstr) (ev : ProfilerEvent) (k v : jstr) :
  ev ∈ parseXEventData xml lookup ->
  k <> lit "database_name" ->
  values ev !! k = Some v ->
  trimmed v = true.
Proof.
  intros Hev Hk Hv. apply parseXEventData_elem in Hev as (m & Hpe).
  apply parse_event_inv in Hpe as (nm & tm & _ & _ & _ & _ & Hvals).
  rewrite Hvals, resolve_database_other in Hv by done.
  revert Hv. apply store_texts_trimmed.
  by do 2 apply store_fields_trimmed.
Qed.

Lemma parsed_values_are_trimmed_witness :
  trimmed (lit "SELECT 1" ++ [nl] ++ lit "FROM t") = true.
Proof.
  apply (parsed_values_are_trimmed MoreExamples.ring_padded ∅
           MoreExamples.padded_event (lit "batch_text")).
  - vm_compute. left.
  - discriminate.
  - vm_compute. reflexivity.
Defined.

(** X4. The loop over text sub-values changes only keys that end in
    [_text]: whatever the matches, a key without that ending keeps the
    value (or the absence of a value) it had after the loops over data and
    action fields. *)
Theorem store_texts_only_touches_text_keys
    (ms : list (list jstr)) (o : gmap jstr jstr) (k : jstr) :
  ends_with (lit "_text") k = false ->
  store_texts ms o !! k = o !! k.
Proof.
  intros Hk. unfold store_texts. revert o.
  induction ms as [|m ms IH]; intros o; [done|].
  simpl. rewrite IH, assign_lookup.
  repeat case_decide; [done| |done].
  subst k. by rewrite ends_with_app in Hk.
Qed.

Lemma store_texts_only_touches_text_keys_witness :
  store_texts (matchAll textRe Examples.ring_text_collision)
    (store_fields (matchAll dataRe Examples.ring_text_collision) ∅)
    !! lit "result"
  = store_fields (matchAll dataRe Examples.ring_text_collision) ∅
    !! lit "result".
Proof.
  apply (store_texts_only_touches_text_keys
           (matchAll textRe Examples.ring_text_collision)
           (store_fields (matchAll dataRe Examples.ring_text_collision) ∅)
           (lit "result")).
  vm_compute. reflexivity.
Defined.

(** ** Poll ticks: what a tick keeps *)

Section Ticks.
Implicit Types (evs new : list ProfilerEvent) (cap : Z) (s : ProfilerSession).

Lemma slice_from_suffix {A} (k : Z) (l : list A) : slice_from k l `suffix_of` l.
Proof. unfold slice_from. apply suffix_drop. Qed.

Lemma mergeEvents_suffix cap new evs :
  mergeEvents cap new evs `suffix_of` uniqueNewEvents new evs ++ evs.
Proof.
  unfold mergeEvents. destruct (0 <? length (uniqueNewEvents new evs)).
  - cbv zeta. case_match; [apply slice_from_suffix|done].
  - apply suffix_app_r. done.
Qed.

Lemma mergeEvents_keeps cap new evs :
  (Z.of_nat (length evs) <= cap)%Z -> evs `suffix_of` mergeEvents cap new evs.
Proof.
  intros Hlen. unfold mergeEvents.
  destruct (uniqueNewEvents new evs) as [|e u] eqn:Hu; [done|].
  cbn [length Nat.ltb Nat.leb]. cbv zeta.
  destruct (Z.ltb_spec cap (Z.of_nat (length ((e :: u) ++ evs)))) as [Hcut|_].
  - unfold slice_from. rewrite length_app in *.
    destruct (Z.ltb_spec (- cap) 0) as [_|Hneg].
    + exists (drop (Z.to_nat (Z.max
                (Z.of_nat (length (e :: u) + length evs) + - cap) 0)) (e :: u)).
      rewrite drop_app_le by lia. done.
    + assert (cap = 0%Z) as -> by lia. destruct evs; [|simpl in Hlen; lia].
      apply suffix_nil.
  - by apply suffix_app_r.
Qed.

Lemma filter_none {A} (P : A -> Prop) `{!forall x, Decision (P x)} (l : list A) :
  (forall x, x ∈ l -> ~ P x) -> filter P l = [].
Proof.
  induction l as [|x l IH]; intros Hall; [done|].
  rewrite filter_cons, decide_False by (apply Hall; left).
  apply IH. intros y Hy. apply Hall. by right.
Qed.

Lemma filter_all {A} (P : A -> Prop) `{!forall x, Decision (P x)} (l : list A) :
  (forall x, x ∈ l -> P x) -> filter P l = l.
Proof.
  induction l as [|x l IH]; intros Hall; [done|].
  rewrite filter_cons, decide_True by (apply Hall; left).
  f_equal. apply IH. intros y Hy. apply Hall. by right.
Qed.

(** What a tick has just merged is not fresh any more. *)
Lemma uniqueNewEvents_absorbed new evs :
  uniqueNewEvents new (uniqueNewEvents new evs ++ evs) = [].
Proof.
  unfold uniqueNewEvents at 1. apply filter_none. intros e He Hfresh.
  apply Hfresh. apply elem_of_list_to_set. rewrite fmap_app, elem_of_app.
  destruct (decide (timestamp e ∈ timestamp <$> evs)) as [Hin|Hout]; [by right|].
  left. apply list_elem_of_fmap. exists e. split; [done|].
  unfold uniqueNewEvents. apply list_elem_of_filter. split; [|done].
  by rewrite elem_of_list_to_set.
Qed.

Lemma uniqueNewEvents_of_empty new : uniqueNewEvents new [] = new.
Proof.
  unfold uniqueNewEvents. apply filter_all. intros e _.
  simpl. apply not_elem_of_empty.
Qed.

Lemma mergeEvents_twice cap new evs :
  (0 <= cap)%Z ->
  mergeEvents cap new (mergeEvents cap new evs) = mergeEvents cap new evs.
Proof.
  intros Hcap.
  destruct (uniqueNewEvents new evs) as [|e u] eqn:Hu.
  { rewrite (mergeEvents_none cap new evs Hu).
    exact (mergeEvents_none cap new evs Hu). }
  rewrite (mergeEvents_some cap new evs) by (by rewrite Hu). cbv zeta.
  destruct (Z.ltb_spec cap (Z.of_nat (length (uniqueNewEvents new evs ++ evs))))
    as [Hcut|Hfit].
  - destruct (decide (cap = 0%Z)) as [->|Hpos].
    + assert (slice_from (- 0) (uniqueNewEvents new evs ++ evs)
              = uniqueNewEvents new evs ++ evs) as ->.
      { unfold slice_from. change (- 0 <? 0)%Z with false. cbv iota.
        by replace (Z.to_nat (Z.min (- 0) _)) with 0 by lia. }
      apply mergeEvents_none, uniqueNewEvents_absorbed.
    + apply mergeEvents_saturated; [lia|]. apply slice_last_length; lia.
  - apply mergeEvents_none, uniqueNewEvents_absorbed.
Qed.

Lemma set_events_set_events (a b : list ProfilerEvent) s :
  set_events a (set_events b s) = set_events a s.
Proof. done. Qed.

Lemma set_events_id s : set_events (events s) s = s.
Proof. by destruct s. Qed.

Lemma pollEvents_set_events cap reply s :
  pollEvents cap reply s
  = set_events (mergeEvents cap (parsed reply s) (events s)) s.
Proof.
  unfold pollEvents, parsed. destruct (payload reply); [done|].
  by rewrite mergeEvents_none, set_events_id.
Qed.
End Ticks.

(** X5. A tick that brings no payload changes nothing: when the query
    fails, when the result has no recordset or no row, when the column of
    the first row is [NULL] or the empty string, the session after the tick
    is the session before it. And whatever the reply, a tick changes at
    most the event list: name, connection, state, lookup table and time
    stamps of the session stay. *)
Theorem tick_without_payload_changes_nothing
    (cap : Z) (s : ProfilerSession) :
  (forall m, pollEvents cap (QueryFailed m) s = s)
  /\ pollEvents cap (QueryDone None) s = s
  /\ pollEvents cap (QueryDone (Some [])) s = s
  /\ (forall rows, pollEvents cap (QueryDone (Some (None :: rows))) s = s)
  /\ (forall rows, pollEvents cap (QueryDone (Some (Some [] :: rows))) s = s)
  /\ (forall reply,
        set_events (events s) (pollEvents cap reply s) = s).
Proof.
  split_and!; try done.
  intros reply. rewrite pollEvents_set_events. by destruct s.
Qed.

(** X6. A tick never reorders: the list after a tick is an end segment of
    the fresh events of the payload, in payload order, followed by the list
    before the tick. *)
Theorem tick_result_is_an_end_segment
    (cap : Z) (reply : QueryResult) (s : ProfilerSession) :
  events (pollEvents cap reply s)
  `suffix_of` uniqueNewEvents (parsed reply s) (events s) ++ events s.
Proof. rewrite pollEvents_events. apply mergeEvents_suffix. Qed.

(** X7. A tick loses none of the events already collected as long as they
    fit the cap: the list before the tick is an end segment of the list
    after it. *)
Theorem tick_keeps_the_events_that_fit
    (cap : Z) (reply : QueryResult) (s : ProfilerSession) :
  (Z.of_nat (length (events s)) <= cap)%Z ->
  events s `suffix_of` events (pollEvents cap reply s).
Proof. intros H. rewrite pollEvents_events. by apply mergeEvents_keeps. Qed.

Lemma tick_keeps_the_events_that_fit_witness :
  Examples.kept `suffix_of`
    events (pollEvents 3 (Examples.reply_of Examples.ring_four)
              (Examples.session_in Running Examples.kept)).
Proof.
  apply (tick_keeps_the_events_that_fit 3 (Examples.reply_of Examples.ring_four)
           (Examples.session_in Running Examples.kept)).
  vm_compute. discriminate.
Defined.

(** X8. Under a cap that is not negative, a tick that receives the payload
    of the tick before it changes nothing: polling the same ring buffer
    content twice is polling it once. *)
Theorem tick_on_the_same_payload_is_idempotent
    (cap : Z) (reply : QueryResult) (s : ProfilerSession) :
  (0 <= cap)%Z ->
  pollEvents cap reply (pollEvents cap reply s) = pollEvents cap reply s.
Proof.
  intros Hcap.
  assert (parsed reply (pollEvents cap reply s) = parsed reply s) as Hp
    by apply parsed_lookup, pollEvents_lookup.
  rewrite (pollEvents_set_events cap reply (pollEvents cap reply s)), Hp.
  rewrite pollEvents_events, mergeEvents_twice by done.
  by rewrite (pollEvents_set_events cap reply s).
Qed.

Lemma tick_on_the_same_payload_witness :
  pollEvents 3 (Examples.reply_of Examples.ring_four)
    (pollEvents 3 (Examples.reply_of Examples.ring_four)
       (Examples.session_in Running Examples.kept))
  = pollEvents 3 (Examples.reply_of Examples.ring_four)
      (Examples.session_in Running Examples.kept).
Proof.
  apply (tick_on_the_same_payload_is_idempotent 3
           (Examples.reply_of Examples.ring_four)
           (Examples.session_in Running Examples.kept)).
  lia.
Defined.

(** X9. Once the list holds exactly [maxEvents] events, with [maxEvents] at
    least 1, no tick under that cap changes the session: fresh events are
    put in front and cut off again. *)
Theorem tick_on_a_full_list_changes_nothing
    (cap : Z) (reply : QueryResult) (s : ProfilerSession) :
  (1 <= cap)%Z -> Z.of_nat (length (events s)) = cap ->
  pollEvents cap reply s = s.
Proof.
  intros Hcap Hfull. rewrite pollEvents_set_events.
  rewrite mergeEvents_saturated by done. apply set_events_id.
Qed.

Lemma tick_on_a_full_list_witness :
  pollEvents 1 (Examples.reply_of Examples.ring_four)
    (Examples.session_in Running Examples.kept)
  = Examples.session_in Running Examples.kept.
Proof.
  apply (tick_on_a_full_list_changes_nothing 1
           (Examples.reply_of Examples.ring_four)
           (Examples.session_in Running Examples.kept)).
  - lia.
  - reflexivity.
Defined.

(** X10. Clearing the buffer does not outlast the next tick: after
    [handleClear], a tick whose payload fits the cap leaves exactly the
    events parsed from the payload, those cleared included if the ring
    buffer still holds them. *)
Theorem tick_after_clear_brings_the_payload_back
    (cap : Z) (reply : QueryResult) (s : ProfilerSession) :
  (Z.of_nat (length (parsed reply s)) <= cap)%Z ->
  events (pollEvents cap reply (handleClear s)) = parsed reply s.
Proof.
  intros Hfit. rewrite pollEvents_events. unfold handleClear.
  rewrite (parsed_lookup reply s (set_events [] s)) by done.
  cbn [events set_events].
  destruct (parsed reply s) as [|e new] eqn:Hp.
  { reflexivity. }
  rewrite mergeEvents_some by (by rewrite uniqueNewEvents_of_empty).
  cbv zeta. rewrite uniqueNewEvents_of_empty, app_nil_r.
  by destruct (Z.ltb_spec cap (Z.of_nat (length (e :: new)))); [lia|].
Qed.

Lemma tick_after_clear_witness :
  events (pollEvents 1000 (Examples.reply_of Examples.ring_two)
            (handleClear
               (pollEvents 1000 (Examples.reply_of Examples.ring_two)
                  (Examples.session_in Running []))))
  = parsed (Examples.reply_of Examples.ring_two)
      (pollEvents 1000 (Examples.reply_of Examples.ring_two)
         (Examples.session_in Running [])).
Proof.
  apply (tick_after_clear_brings_the_payload_back 1000
           (Examples.reply_of Examples.ring_two)
           (pollEvents 1000 (Examples.reply_of Examples.ring_two)
              (Examples.session_in Running []))).
  vm_compute. discriminate.
Defined.


(** ** Lifecycle: errors, frame and composition *)

Section LifecycleMore.
Variable remote : list jstr -> ConnectionInfo -> jstr -> QueryResult.
Implicit Types (sv : Service) (n : jstr) (s : ProfilerSession) (now : Z).

Lemma stopPolling_timers_sub sv n t m :
  timers (stopPolling n sv) !! t = Some m -> timers sv !! t = Some m.
Proof.
  unfold stopPolling. destruct (pollingIntervals sv !! n) as [t0|]; [|done].
  simpl. destruct (decide (t0 = t)) as [->|Hne].
  - by rewrite lookup_delete_eq.
  - by rewrite lookup_delete_ne.
Qed.

Lemma stopPolling_next sv n : nextTimer (stopPolling n sv) = nextTimer sv.
Proof. unfold stopPolling. by destruct (pollingIntervals sv !! n). Qed.

Lemma stopPolling_self sv n : pollingIntervals (stopPolling n sv) !! n = None.
Proof.
  unfold stopPolling. destruct (pollingIntervals sv !! n) eqn:E; simpl.
  - apply lookup_delete_eq.
  - done.
Qed.

Lemma stopPolling_handle_gone sv n t :
  pollingIntervals sv !! n = Some t -> timers (stopPolling n sv) !! t = None.
Proof. intros H. unfold stopPolling. rewrite H. simpl. apply lookup_delete_eq. Qed.

Lemma consistent_stopPolling sv n : consistent sv -> consistent (stopPolling n sv).
Proof.
  intros (Hkey & Hlive & Hfresh). split_and!.
  - intros k s. rewrite stopPolling_sessions. apply Hkey.
  - intros k t Hk. destruct (decide (k = n)) as [->|Hne].
    { by rewrite stopPolling_self in Hk. }
    rewrite stopPolling_other in Hk by done.
    pose proof (Hlive _ _ Hk) as Ht.
    unfold stopPolling. destruct (pollingIntervals sv !! n) as [t0|] eqn:E;
      [|done].
    simpl. rewrite lookup_delete_ne; [done|].
    intros ->. apply Hlive in E. congruence.
  - intros t k Ht. rewrite stopPolling_next.
    eapply Hfresh, stopPolling_timers_sub, Ht.
Qed.

Lemma consistent_startPolling sv s :
  consistent sv -> consistent (startPolling s sv).
Proof.
  intros (Hkey & Hlive & Hfresh). split_and!.
  - exact Hkey.
  - intros k t. simpl. destruct (decide (session_name s = k)) as [<-|Hne].
    + rewrite lookup_insert_eq. intros [= <-]. by rewrite lookup_insert_eq.
    + rewrite lookup_insert_ne by done. intros Hk.
      rewrite lookup_insert_ne; [by apply Hlive|].
      intros <-. apply Hlive, Hfresh in Hk. lia.
  - intros t k. simpl. destruct (decide (nextTimer sv = t)) as [<-|Hne].
    + intros _. lia.
    + rewrite lookup_insert_ne by done. intros Ht.
      apply Hfresh in Ht. lia.
Qed.

Lemma consistent_update sv n s :
  consistent sv -> session_name s = n ->
  consistent (with_sessions (<[n := s]> (activeSessions sv)) sv).
Proof.
  intros (Hkey & Hlive & Hfresh) Hn. split_and!; [|done..].
  intros k s'. simpl. destruct (decide (n = k)) as [<-|Hne].
  - rewrite lookup_insert_eq. by intros [= <-].
  - rewrite lookup_insert_ne by done. apply Hkey.
Qed.

Lemma consistent_remove sv n :
  consistent sv -> consistent (with_sessions (delete n (activeSessions sv)) sv).
Proof.
  intros (Hkey & Hlive & Hfresh). split_and!; [|done..].
  intros k s'. simpl. destruct (decide (n = k)) as [<-|Hne].
  - by rewrite lookup_delete_eq.
  - rewrite lookup_delete_ne by done. apply Hkey.
Qed.

Lemma consistent_logged sv (l : list jstr) :
  consistent sv ->
  consistent {| activeSessions := activeSessions sv;
                pollingIntervals := pollingIntervals sv;
                timers := timers sv; nextTimer := nextTimer sv; sent := l |}.
Proof. done. Qed.

Lemma consistent_startSession now sv n :
  consistent sv -> consistent (startSession remote now n sv).2.
Proof.
  intros Hc. unfold startSession, executeQuery.
  destruct (activeSessions sv !! n) as [s|] eqn:Hs; [|done].
  destruct (remote _ _ _); [by apply consistent_logged|].
  cbn [snd]. apply consistent_startPolling.
  apply (consistent_update
           {| activeSessions := activeSessions sv;
              pollingIntervals := pollingIntervals sv;
              timers := timers sv; nextTimer := nextTimer sv;
              sent := sent sv ++ [startSql n (isAzure (connection s))] |});
    [by apply consistent_logged|].
  destruct Hc as (Hkey & _). simpl. by apply Hkey.
Qed.

Lemma consistent_pauseSession sv n :
  consistent sv -> consistent (pauseSession n sv).2.
Proof.
  intros Hc. unfold pauseSession.
  destruct (activeSessions sv !! n) as [s|] eqn:Hs; [|done].
  cbn [snd]. apply consistent_update; [by apply consistent_stopPolling|].
  destruct Hc as (Hkey & _). simpl. by apply Hkey.
Qed.

Lemma consistent_resumeSession sv n :
  consistent sv -> consistent (resumeSession n sv).2.
Proof.
  intros Hc. unfold resumeSession.
  destruct (activeSessions sv !! n) as [s|] eqn:Hs; [|done].
  case_decide; [|done].
  cbn [snd]. apply consistent_startPolling.
  apply consistent_update; [done|].
  destruct Hc as (Hkey & _). simpl. by apply Hkey.
Qed.

Lemma consistent_stopSession now sv n :
  consistent sv -> consistent (stopSession remote now n sv).2.
Proof.
  intros Hc. unfold stopSession, executeQuery.
  destruct (activeSessions sv !! n) as [s|] eqn:Hs; [|done].
  pose proof (consistent_stopPolling sv n Hc) as Hc1.
  destruct (remote _ _ _); [by apply consistent_logged|].
  cbn [snd].
  apply (consistent_update
           {| activeSessions := activeSessions (stopPolling n sv);
              pollingIntervals := pollingIntervals (stopPolling n sv);
              timers := timers (stopPolling n sv);
              nextTimer := nextTimer (stopPolling n sv);
              sent := sent (stopPolling n sv)
                      ++ [stopSql n (isAzure (connection s))] |});
    [by apply consistent_logged|].
  destruct Hc as (Hkey & _). simpl. by apply Hkey.
Qed.

Lemma consistent_dropSession now sv n :
  consistent sv -> consistent (dropSession remote now n sv).2.
Proof.
  intros Hc. unfold dropSession.
  destruct (activeSessions sv !! n) as [s|] eqn:Hs; [|done].
  assert (consistent
            (if decide (state s = Running) then stopSession remote now n sv
             else (Returned, sv)).2) as Hc1.
  { case_decide; [by apply consistent_stopSession|done]. }
  destruct (if decide (state s = Running) then stopSession remote now n sv
            else (Returned, sv)) as [[|m] sv1]; [|done].
  unfold executeQuery. cbn [snd] in Hc1.
  destruct (remote _ _ _); [by apply consistent_logged|].
  cbn [snd].
  apply (consistent_remove
           {| activeSessions := activeSessions sv1;
              pollingIntervals := pollingIntervals sv1;
              timers := timers sv1; nextTimer := nextTimer sv1;
              sent := sent sv1 ++ [dropSql n (isAzure (connection s))] |}).
  by apply consistent_logged.
Qed.

Lemma fold_stopPolling_consistent (l : list jstr) sv :
  consistent sv ->
  consistent (fold_left (fun acc k => stopPolling k acc) l sv).
Proof.
  revert sv. induction l as [|a l IH]; intros sv Hc; [done|].
  simpl. by apply IH, consistent_stopPolling.
Qed.
End LifecycleMore.

Lemma consistent_createSession
    (remote : list jstr -> ConnectionInfo -> jstr -> QueryResult)
    (catalog : list jstr -> ConnectionInfo -> option (option (list (Z * jstr))))
    (now : Z) (conn : ConnectionInfo) (n : jstr)
    (tpl : ProfilerSessionTemplate) (sv : Service) :
  consistent sv -> consistent (createSession remote catalog now conn n tpl sv).2.
Proof.
  intros Hc. unfold createSession, executeQuery, fetchDatabaseList.
  destruct (activeSessions sv !! n); [done|].
  destruct (remote _ _ _); [by apply consistent_logged|].
  cbn [fst snd]. apply (consistent_update _ n); [|done].
  by apply consistent_logged.
Qed.

Section LifecycleLaws.
Variable remote : list jstr -> ConnectionInfo -> jstr -> QueryResult.
Implicit Types (sv : Service) (n : jstr) (s : ProfilerSession) (now : Z).

Lemma stopSession_other now sv n n' :
  n' <> n ->
  activeSessions (stopSession remote now n sv).2 !! n' = activeSessions sv !! n'.
Proof.
  intros Hne. unfold stopSession, executeQuery.
  destruct (activeSessions sv !! n) as [s|]; [|done].
  destruct (remote _ _ _); cbn [snd activeSessions with_sessions].
  - by rewrite stopPolling_sessions.
  - by rewrite lookup_insert_ne, stopPolling_sessions.
Qed.

End LifecycleLaws.

(** X11. On a name that is not registered, each of start, pause, resume,
    stop and drop fails with [Session '<name>' not found] and leaves the
    service as it was; in particular nothing is sent to the engine. *)
Theorem unregistered_name_is_not_found
    (remote : list jstr -> ConnectionInfo -> jstr -> QueryResult)
    (now : Z) (n : jstr) (sv : Service) :
  activeSessions sv !! n = None ->
  startSession remote now n sv = (Thrown (not_found n), sv)
  /\ pauseSession n sv = (Thrown (not_found n), sv)
  /\ resumeSession n sv = (Thrown (not_found n), sv)
  /\ stopSession remote now n sv = (Thrown (not_found n), sv)
  /\ dropSession remote now n sv = (Thrown (not_found n), sv).
Proof.
  intros Hn. unfold startSession, pauseSession, resumeSession, stopSession,
    dropSession. by rewrite Hn.
Qed.

Lemma unregistered_name_witness :
  pauseSession (lit "s2") Examples.running_service
  = (Thrown (not_found (lit "s2")), Examples.running_service).
Proof.
  apply (unregistered_name_is_not_found Examples.engine_up 0 (lit "s2")
           Examples.running_service).
  vm_compute. reflexivity.
Defined.

(** X12. A lifecycle call on one session, whatever its outcome, leaves the
    registry entries of all other sessions as they were. *)
Theorem other_sessions_are_untouched
    (remote : list jstr -> ConnectionInfo -> jstr -> QueryResult)
    (now : Z) (n n' : jstr) (sv : Service) :
  n' <> n ->
  activeSessions (startSession remote now n sv).2 !! n' = activeSessions sv !! n'
  /\ activeSessions (pauseSession n sv).2 !! n' = activeSessions sv !! n'
  /\ activeSessions (resumeSession n sv).2 !! n' = activeSessions sv !! n'
  /\ activeSessions (stopSession remote now n sv).2 !! n' = activeSessions sv !! n'
  /\ activeSessions (dropSession remote now n sv).2 !! n' = activeSessions sv !! n'.
Proof.
  intros Hne. split_and!.
  - unfold startSession, executeQuery.
    destruct (activeSessions sv !! n) as [s|]; [|done].
    destruct (remote _ _ _); [done|].
    cbn [snd activeSessions startPolling with_sessions].
    by rewrite lookup_insert_ne.
  - unfold pauseSession. destruct (activeSessions sv !! n) as [s|]; [|done].
    cbn [snd activeSessions with_sessions].
    by rewrite lookup_insert_ne, stopPolling_sessions.
  - unfold resumeSession. destruct (activeSessions sv !! n) as [s|]; [|done].
    case_decide; [|done].
    cbn [snd activeSessions startPolling with_sessions].
    by rewrite lookup_insert_ne.
  - by apply stopSession_other.
  - unfold dropSession. destruct (activeSessions sv !! n) as [s|]; [|done].
    pose proof (stopSession_other remote now sv n n' Hne) as Hstop.
    assert (activeSessions
              (if decide (state s = Running) then stopSession remote now n sv
               else (Returned, sv)).2 !! n' = activeSessions sv !! n') as H1.
    { by case_decide. }
    destruct (if decide (state s = Running) then stopSession remote now n sv
              else (Returned, sv)) as [[|m] sv1]; [|done].
    unfold executeQuery. cbn [snd] in H1.
    destruct (remote _ _ _); cbn [snd activeSessions with_sessions]; [done|].
    by rewrite lookup_delete_ne.
Qed.

Lemma other_sessions_witness :
  activeSessions
    (dropSession Examples.engine_up 0 (lit "s2") Examples.running_service).2
    !! lit "s1"
  = activeSessions Examples.running_service !! lit "s1".
Proof.
  apply (other_sessions_are_untouched Examples.engine_up 0 (lit "s2") (lit "s1")
           Examples.running_service).
  discriminate.
Defined.

(** X13. Resume succeeds exactly on a registered session that is Paused.
    Then the session is Running and polled again: a new timer is live for
    the session and is recorded as its polling handle, and every timer
    that was live stays live. In every other case the call fails and
    leaves the service as it was; for a registered session that is not
    Paused the failure is [Session '<name>' is not paused]. *)
Theorem resume_succeeds_exactly_on_a_paused_session (n : jstr) (sv : Service) :
  ((resumeSession n sv).1 = Returned
   <-> exists s, activeSessions sv !! n = Some s /\ state s = Paused)
  /\ ((resumeSession n sv).1 <> Returned -> (resumeSession n sv).2 = sv)
  /\ (forall s, activeSessions sv !! n = Some s -> state s <> Paused ->
       (resumeSession n sv).1
       = Thrown (lit "Session '" ++ n ++ lit "' is not paused"))
  /\ (forall s, activeSessions sv !! n = Some s -> state s = Paused ->
       activeSessions (resumeSession n sv).2 !! n = Some (set_state Running s)
       /\ polling (resumeSession n sv).2 (session_name s) = true
       /\ pollingIntervals (resumeSession n sv).2
          = <[session_name s := nextTimer sv]> (pollingIntervals sv)
       /\ timers (resumeSession n sv).2
          = <[nextTimer sv := session_name s]> (timers sv)
       /\ timers (resumeSession n sv).2 !! nextTimer sv
          = Some (session_name s)).
Proof.
  unfold resumeSession.
  destruct (activeSessions sv !! n) as [s|] eqn:Hs.
  - destruct (decide (state s = Paused)) as [Hp|Hp]; cbn [fst snd].
    + split_and!; [|done| |].
      * split; [by exists s|done].
      * by intros s' [= <-] Hne.
      * intros s' [= <-] _. split_and!.
        -- cbn [activeSessions startPolling with_sessions].
           by rewrite lookup_insert_eq.
        -- apply (polling_startPolling _ (set_state Running s)).
        -- done.
        -- done.
        -- cbn [timers startPolling with_sessions]. apply lookup_insert_eq.
    + split_and!; [|done| |].
      * split; [done|]. by intros (s' & [= <-] & Hst).
      * done.
      * by intros s' [= <-] Hst.
  - cbn [fst snd]. split_and!; [|done|done|done].
    split; [done|]. by intros (s' & ? & _).
Qed.

Lemma resume_witness :
  (resumeSession (lit "s1") Examples.running_service).1
  = Thrown (lit "Session '" ++ lit "s1" ++ lit "' is not paused").
Proof.
  refine (proj1 (proj2 (proj2
            (resume_succeeds_exactly_on_a_paused_session (lit "s1")
               Examples.running_service)))
            (Examples.session_in Running Examples.kept) _ _).
  - vm_compute. reflexivity.
  - discriminate.
Defined.

(** X14. A stop that the engine accepts: the call returns, exactly the stop
    command is sent, the session is Stopped with its stop time recorded
    and everything else, the collected events included, as before; the
    polling handle of the session is removed and the timer that was this
    handle is cleared, the other handles and timers being as before. When
    the handle was the only live timer of the session, no timer of the
    session is live afterwards (a timer that an earlier second start has
    left without a handle stays live). *)
Theorem stop_keeps_the_events
    (remote : list jstr -> ConnectionInfo -> jstr -> QueryResult)
    (now : Z) (n : jstr) (sv : Service) (s : ProfilerSession)
    (rs : option (list (option jstr))) :
  activeSessions sv !! n = Some s ->
  remote (sent sv) (connection s) (stopSql n (isAzure (connection s)))
  = QueryDone rs ->
  let r := stopSession remote now n sv in
  r.1 = Returned
  /\ sent r.2 = sent sv ++ [stopSql n (isAzure (connection s))]
  /\ activeSessions r.2
     = <[n := set_stoppedAt now (set_state Stopped s)]> (activeSessions sv)
  /\ events <$> (activeSessions r.2 !! n) = Some (events s)
  /\ polling r.2 n = false
  /\ pollingIntervals r.2 = delete n (pollingIntervals sv)
  /\ timers r.2 = match pollingIntervals sv !! n with
                  | Some t => delete t (timers sv)
                  | None => timers sv
                  end
  /\ ((forall t, timers sv !! t = Some n -> pollingIntervals sv !! n = Some t) ->
      forall t, timers r.2 !! t <> Some n).
Proof.
  intros Hs Hrem. cbv zeta. unfold stopSession, executeQuery.
  rewrite Hs, stopPolling_sent, Hrem.
  cbn [fst snd sent activeSessions pollingIntervals timers with_sessions].
  rewrite stopPolling_sessions. split_and!; [done..| | | | |].
  - by rewrite lookup_insert_eq.
  - apply polling_stopPolling.
  - apply stopPolling_handles.
  - apply stopPolling_timers.
  - apply stopPolling_clears.
Qed.

Lemma stop_keeps_the_events_witness :
  events <$> (activeSessions
                (stopSession Examples.engine_up 5 (lit "s1")
                   Examples.running_service).2 !! lit "s1")
  = Some Examples.kept.
Proof.
  apply (stop_keeps_the_events Examples.engine_up 5 (lit "s1")
           Examples.running_service
           (Examples.session_in Running Examples.kept) None);
    vm_compute; reflexivity.
Defined.

(** X15. A drop that returns normally removes the session and nothing else
    from the registry; from then on the name is unknown: [getSession] gives
    nothing and a further start fails with [not found] without reaching
    the engine. *)
Theorem dropped_session_is_gone
    (remote : list jstr -> ConnectionInfo -> jstr -> QueryResult)
    (now now' : Z) (n : jstr) (sv sv' : Service) :
  dropSession remote now n sv = (Returned, sv') ->
  activeSessions sv' = delete n (activeSessions sv)
  /\ getSession n sv' = None
  /\ startSession remote now' n sv' = (Thrown (not_found n), sv')
  /\ dropSession remote now' n sv' = (Thrown (not_found n), sv').
Proof.
  intros Hdrop.
  assert (activeSessions sv' = delete n (activeSessions sv)) as Hreg.
  { revert Hdrop. unfold dropSession.
    destruct (activeSessions sv !! n) as [s|] eqn:Hs; [|done].
    destruct (decide (state s = Running)) as [Hrun|Hrun].
    - destruct (stopSession remote now n sv) as [[|m] sv1] eqn:Hstop; [|done].
      destruct (stopSession_done remote now sv n s sv1 Hs Hstop) as [Hreg _].
      unfold executeQuery. destruct (remote _ _ _); [done|].
      intros [= <-]. cbn [activeSessions with_sessions]. rewrite Hreg.
      by rewrite delete_insert_eq.
    - unfold executeQuery. destruct (remote _ _ _); [done|].
      by intros [= <-]. }
  assert (activeSessions sv' !! n = None) as Hgone
    by (rewrite Hreg; apply lookup_delete_eq).
  split_and!; [done|done| |].
  - unfold startSession. by rewrite Hgone.
  - unfold dropSession. by rewrite Hgone.
Qed.

Lemma dropped_session_is_gone_witness :
  getSession (lit "s1")
    (dropSession Examples.engine_up 0 (lit "s1") Examples.running_service).2
  = None.
Proof.
  eapply (dropped_session_is_gone Examples.engine_up 0 0 (lit "s1")
            Examples.running_service).
  vm_compute. reflexivity.
Defined.

(** ** Creation, shutdown and the pause toggle *)

Section Shutdown.
Implicit Types (sv : Service) (n : jstr) (l : list jstr).

Lemma fold_stopPolling_handles l sv n :
  pollingIntervals (fold_left (fun acc k => stopPolling k acc) l sv) !! n
  = if decide (n ∈ l) then None else pollingIntervals sv !! n.
Proof.
  revert sv. induction l as [|a l IH]; intros sv.
  - rewrite decide_False; [done|]. apply not_elem_of_nil.
  - simpl. rewrite IH. destruct (decide (n ∈ l)) as [Hin|Hout].
    + rewrite decide_True; [done|by right].
    + destruct (decide (n = a)) as [->|Hne].
      * rewrite decide_True by left. apply stopPolling_self.
      * rewrite decide_False.
        -- by apply stopPolling_other.
        -- intros [?|?]%elem_of_cons; done.
Qed.

Lemma fold_stopPolling_timers l sv t n :
  timers (fold_left (fun acc k => stopPolling k acc) l sv) !! t = Some n ->
  timers sv !! t = Some n.
Proof.
  revert sv. induction l as [|a l IH]; intros sv; [done|].
  simpl. intros H. by eapply stopPolling_timers_sub, IH.
Qed.

Lemma fold_stopPolling_sessions l sv :
  activeSessions (fold_left (fun acc k => stopPolling k acc) l sv)
  = activeSessions sv.
Proof.
  revert sv. induction l as [|a l IH]; intros sv; [done|].
  simpl. by rewrite IH, stopPolling_sessions.
Qed.

Lemma fold_stopPolling_sent l sv :
  sent (fold_left (fun acc k => stopPolling k acc) l sv) = sent sv.
Proof.
  revert sv. induction l as [|a l IH]; intros sv; [done|].
  simpl. by rewrite IH, stopPolling_sent.
Qed.

(** A timer that survives the loop was not the handle of a name the loop
    went through. *)
Lemma fold_stopPolling_cleared l sv t n :
  timers (fold_left (fun acc k => stopPolling k acc) l sv) !! t = Some n ->
  n ∈ l -> pollingIntervals sv !! n <> Some t.
Proof.
  revert sv. induction l as [|a l IH]; intros sv Ht Hin.
  - by apply elem_of_nil in Hin.
  - simpl in Ht. destruct (decide (n = a)) as [->|Hne].
    + intros Hh. apply fold_stopPolling_timers in Ht.
      by rewrite (stopPolling_handle_gone _ _ _ Hh) in Ht.
    + apply elem_of_cons in Hin as [?|Hin]; [done|].
      rewrite <- (stopPolling_other sv a n) by done. by eapply IH.
Qed.

Lemma handle_names sv n :
  n ∈ (map_to_list (pollingIntervals sv)).*1
  <-> is_Some (pollingIntervals sv !! n).
Proof.
  rewrite list_elem_of_fmap. split.
  - intros ([k t] & -> & Hin). apply elem_of_map_to_list in Hin. by exists t.
  - intros [t Ht]. exists (n, t). split; [done|]. by apply elem_of_map_to_list.
Qed.

Lemma dispose_handles sv : pollingIntervals (dispose sv) = ∅.
Proof.
  apply map_empty. intros n. unfold dispose. cbn [pollingIntervals with_sessions].
  rewrite fold_stopPolling_handles. case_decide as Hin; [done|].
  destruct (pollingIntervals sv !! n) eqn:E; [|done].
  exfalso. apply Hin, handle_names. by rewrite E.
Qed.
End Shutdown.

Lemma running_service_consistent : consistent Examples.running_service.
Proof.
  unfold consistent, Examples.running_service.
  cbn [activeSessions pollingIntervals timers nextTimer]. split_and!.
  - intros n s [<- <-]%lookup_singleton_Some. reflexivity.
  - intros n t [<- <-]%lookup_singleton_Some. reflexivity.
  - intros t n [<- <-]%lookup_singleton_Some. lia.
Qed.

(** X16. The bookkeeping of the service stays consistent: if every
    registered session is registered under its own name, every polling
    handle is a live timer of its session and the timer handles not yet
    given out are fresh, then the same holds after create, start, pause,
    resume, stop and drop (whatever their outcome), after the pause toggle
    of the controller and after [dispose]. *)
Theorem lifecycle_keeps_the_service_consistent
    (remote : list jstr -> ConnectionInfo -> jstr -> QueryResult)
    (catalog : list jstr -> ConnectionInfo -> option (option (list (Z * jstr))))
    (now : Z) (conn : ConnectionInfo) (tpl : ProfilerSessionTemplate)
    (n : jstr) (sv : Service) :
  consistent sv ->
  consistent (createSession remote catalog now conn n tpl sv).2
  /\ consistent (startSession remote now n sv).2
  /\ consistent (pauseSession n sv).2
  /\ consistent (resumeSession n sv).2
  /\ consistent (stopSession remote now n sv).2
  /\ consistent (dropSession remote now n sv).2
  /\ consistent (pauseProfilingCommand n sv)
  /\ consistent (dispose sv).
Proof.
  intros Hc. split_and!.
  - by apply consistent_createSession.
  - by apply consistent_startSession.
  - by apply consistent_pauseSession.
  - by apply consistent_resumeSession.
  - by apply consistent_stopSession.
  - by apply consistent_dropSession.
  - unfold pauseProfilingCommand, getSession.
    destruct (activeSessions sv !! n); [|done].
    case_decide; [by apply consistent_resumeSession
                 |by apply consistent_pauseSession].
  - unfold dispose.
    pose proof (fold_stopPolling_consistent
                  (map_to_list (pollingIntervals sv)).*1 sv Hc)
      as (_ & Hlive & Hfresh).
    split_and!; [|done..]. intros k s. cbn. by rewrite lookup_empty.
Qed.

Lemma lifecycle_keeps_the_service_consistent_witness :
  consistent
    (createSession Examples.engine_up MoreExamples.catalog_two 0
       Examples.local_server (lit "s2") Examples.standard
       Examples.running_service).2.
Proof.
  apply (lifecycle_keeps_the_service_consistent Examples.engine_up
           MoreExamples.catalog_two 0 Examples.local_server Examples.standard
           (lit "s2") Examples.running_service).
  exact running_service_consistent.
Defined.

(** X17. After [dispose] the registry is empty and no polling handle is
    left; the query log is as before; a timer that is still live was not
    the handle of any session, and if every live timer was the handle of
    its session then no timer is left. *)
Theorem dispose_clears_sessions_and_polling (sv : Service) :
  activeSessions (dispose sv) = ∅
  /\ pollingIntervals (dispose sv) = ∅
  /\ sent (dispose sv) = sent sv
  /\ (forall t n, timers (dispose sv) !! t = Some n ->
        timers sv !! t = Some n /\ pollingIntervals sv !! n <> Some t)
  /\ ((forall t n, timers sv !! t = Some n -> pollingIntervals sv !! n = Some t) ->
      timers (dispose sv) = ∅).
Proof.
  assert (forall t n, timers (dispose sv) !! t = Some n ->
            timers sv !! t = Some n /\ pollingIntervals sv !! n <> Some t) as Hleft.
  { intros t n Ht. unfold dispose in Ht. cbn [timers with_sessions] in Ht.
    split; [by eapply fold_stopPolling_timers|]. intros Hh.
    eapply fold_stopPolling_cleared; [exact Ht| |exact Hh].
    apply handle_names. by rewrite Hh. }
  split_and!.
  - done.
  - apply dispose_handles.
  - unfold dispose. cbn [sent with_sessions]. apply fold_stopPolling_sent.
  - exact Hleft.
  - intros Hall. apply map_empty. intros t.
    destruct (timers (dispose sv) !! t) as [n|] eqn:E; [|done].
    destruct (Hleft _ _ E) as [Ht Hno]. by apply Hall in Ht.
Qed.

Lemma dispose_witness : timers (dispose Examples.running_service) = ∅.
Proof.
  apply (dispose_clears_sessions_and_polling Examples.running_service).
  unfold Examples.running_service. cbn [pollingIntervals timers].
  intros t n [<- <-]%lookup_singleton_Some. reflexivity.
Defined.

(** X18. Starting a session that is already polled leaks its timer: in a
    consistent service, after a start that the engine accepts on a session
    polled by timer [t], the handle of the session is a new timer while
    [t] stays live; a later pause (or the [stopPolling] of a stop) clears
    only the new timer, so the session is reported as not polled while [t]
    is still live. *)
Theorem second_start_leaks_the_first_timer
    (remote : list jstr -> ConnectionInfo -> jstr -> QueryResult)
    (now : Z) (n : jstr) (sv : Service) (s : ProfilerSession) (t : nat)
    (rs : option (list (option jstr))) :
  consistent sv ->
  activeSessions sv !! n = Some s ->
  pollingIntervals sv !! n = Some t ->
  remote (sent sv) (connection s) (startSql n (isAzure (connection s)))
  = QueryDone rs ->
  let sv1 := (startSession remote now n sv).2 in
  let sv2 := (pauseSession n sv1).2 in
  pollingIntervals sv1 !! n = Some (nextTimer sv)
  /\ nextTimer sv <> t
  /\ timers sv1 !! t = Some n
  /\ polling sv2 n = false
  /\ timers sv2 !! t = Some n
  /\ timers (stopPolling n sv1) !! t = Some n.
Proof.
  intros (Hkey & Hlive & Hfresh) Hs Ht Hrem. cbv zeta.
  pose proof (Hkey _ _ Hs) as Hname.
  pose proof (Hlive _ _ Ht) as Hlt. pose proof (Hfresh _ _ Hlt) as Hlt'.
  assert (nextTimer sv <> t) as Hne by lia.
  assert ((startSession remote now n sv).2
          = startPolling (set_startedAt now (set_state Running s))
              (with_sessions
                 (<[n := set_startedAt now (set_state Running s)]>
                    (activeSessions sv))
                 (executeQuery remote (connection s)
                    (startSql n (isAzure (connection s))) sv).2)) as Hsv1.
  { unfold startSession. rewrite Hs. unfold executeQuery. by rewrite Hrem. }
  rewrite Hsv1.
  set (sv1 := startPolling _ _).
  assert (pollingIntervals sv1 !! n = Some (nextTimer sv)) as Hh1.
  { unfold sv1. cbn. rewrite Hname. by rewrite lookup_insert_eq. }
  assert (timers sv1 !! t = Some n) as Ht1.
  { unfold sv1. cbn. by rewrite lookup_insert_ne. }
  assert (timers (stopPolling n sv1) !! t = Some n) as Ht2.
  { unfold stopPolling. rewrite Hh1. cbn [timers].
    by rewrite lookup_delete_ne. }
  assert (activeSessions sv1 !! n
          = Some (set_startedAt now (set_state Running s))) as Hs1.
  { unfold sv1. cbn. by rewrite lookup_insert_eq. }
  split_and!; [done..| | |done].
  - unfold pauseSession. rewrite Hs1. cbn [snd]. apply polling_stopPolling.
  - unfold pauseSession. rewrite Hs1. exact Ht2.
Qed.

Lemma second_start_witness :
  timers (pauseSession (lit "s1")
            (startSession Examples.engine_up 0 (lit "s1")
               Examples.running_service).2).2 !! 0
  = Some (lit "s1").
Proof.
  eapply (second_start_leaks_the_first_timer Examples.engine_up 0 (lit "s1")
            Examples.running_service
            (Examples.session_in Running Examples.kept) 0 None).
  - exact running_service_consistent.
  - vm_compute. reflexivity.
  - vm_compute. reflexivity.
  - reflexivity.
Defined.

(** X19. The pause toggle of the controller never reaches the engine, and
    two toggles in a row on a registered session leave it Paused if it was
    Paused and Running otherwise, with its events as before. A session
    that was not Paused ends up polled: its old handle is removed and the
    timer of that handle cleared, then a new timer is live for the session
    and is its handle; so a Stopped session ends up Running and polled
    although no start command was sent. A session that was Paused (and is
    registered under its own name) is left without handle, and the timer
    made for it in between is cleared again. *)
Theorem two_pause_toggles (n : jstr) (sv : Service) (s : ProfilerSession) :
  activeSessions sv !! n = Some s ->
  let sv2 := pauseProfilingCommand n (pauseProfilingCommand n sv) in
  sent (pauseProfilingCommand n sv) = sent sv
  /\ sent sv2 = sent sv
  /\ activeSessions sv2
     = <[n := set_state (if decide (state s = Paused) then Paused else Running) s]>
         (activeSessions sv)
  /\ (state s <> Paused -> polling sv2 (session_name s) = true)
  /\ (state s = Paused -> polling sv2 n = false)
  /\ (state s <> Paused ->
      pollingIntervals sv2
      = <[session_name s := nextTimer sv]> (delete n (pollingIntervals sv))
      /\ timers sv2
         = <[nextTimer sv := session_name s]>
             (match pollingIntervals sv !! n with
              | Some t => delete t (timers sv)
              | None => timers sv
              end)
      /\ timers sv2 !! nextTimer sv = Some (session_name s))
  /\ (state s = Paused -> session_name s = n ->
      pollingIntervals sv2 = delete n (pollingIntervals sv)
      /\ timers sv2 = delete (nextTimer sv) (timers sv)
      /\ timers sv2 !! nextTimer sv = None).
Proof.
  intros Hs. cbv zeta. unfold pauseProfilingCommand, getSession. rewrite Hs.
  destruct (decide (state s = Paused)) as [Hp|Hp].
  - (* resume, then pause *)
    unfold resumeSession. rewrite Hs, decide_True by done.
    cbn [snd activeSessions startPolling with_sessions].
    rewrite lookup_insert_eq. cbn [state set_state].
    rewrite decide_False by done.
    unfold pauseSession. cbn [activeSessions startPolling with_sessions].
    rewrite lookup_insert_eq. cbn [snd].
    split_and!; [done| | |done| |done|].
    + cbn [sent with_sessions]. by rewrite stopPolling_sent.
    + cbn [activeSessions with_sessions]. rewrite stopPolling_sessions.
      cbn [activeSessions startPolling with_sessions].
      by rewrite insert_insert_eq.
    + intros _. apply polling_stopPolling.
    + intros _ Hname.
      cbn [pollingIntervals timers with_sessions].
      rewrite stopPolling_handles, stopPolling_timers.
      cbn [pollingIntervals timers startPolling with_sessions set_state
           session_name].
      rewrite Hname, lookup_insert_eq, delete_insert_eq, delete_insert_eq.
      split_and!; [done..|]. apply lookup_delete_eq.
  - (* pause, then resume *)
    unfold pauseSession. rewrite Hs.
    cbn [snd activeSessions with_sessions].
    rewrite lookup_insert_eq. cbn [state set_state].
    rewrite decide_True by done.
    unfold resumeSession. cbn [activeSessions with_sessions].
    rewrite lookup_insert_eq. cbn [state set_state].
    rewrite decide_True by done. cbn [snd].
    split_and!; [| | | |done| |done].
    + cbn [sent with_sessions]. by rewrite stopPolling_sent.
    + cbn [sent startPolling with_sessions]. by rewrite stopPolling_sent.
    + cbn [activeSessions startPolling with_sessions].
      rewrite stopPolling_sessions. by rewrite insert_insert_eq.
    + intros _.
      apply (polling_startPolling _ (set_state Running (set_state Paused s))).
    + intros _.
      cbn [pollingIntervals timers nextTimer startPolling with_sessions].
      rewrite stopPolling_handles, stopPolling_timers, stopPolling_next.
      split_and!; [by destruct s|by destruct s|].
      destruct s. apply lookup_insert_eq.
Qed.

Lemma two_pause_toggles_witness :
  state <$> (activeSessions
               (pauseProfilingCommand (lit "s1")
                  (pauseProfilingCommand (lit "s1")
                     (Examples.idle_service Stopped))) !! lit "s1")
  = Some Running.
Proof.
  pose proof (two_pause_toggles (lit "s1") (Examples.idle_service Stopped)
                (Examples.session_in Stopped Examples.kept)) as H.
  destruct H as (_ & _ & Hreg & _); [vm_compute; reflexivity|].
  rewrite Hreg. vm_compute. reflexivity.
Defined.

(** ** Creation of a session *)

Section Substitution.
Implicit Types (repl seen c x rest : jstr).

Lemma substitution_plain (matched before after repl : jstr) :
  forallb (fun a => negb (ch_eqb a "$")) repl = true ->
  substitution matched before after repl = repl.
Proof.
  induction repl as [|a r IH]; [done|]. simpl.
  intros [Ha Hr]%andb_prop. apply negb_true_iff in Ha. rewrite Ha.
  by rewrite IH.
Qed.

Lemma replace_all_chunk repl seen c rest :
  forallb (fun a => negb (ch_eqb "{" a)) c = true ->
  replace_all repl seen 0 (c ++ rest)
  = c ++ replace_all repl (rev c ++ seen) 0 rest.
Proof.
  revert seen. induction c as [|a c IH]; intros seen; [done|].
  cbn [forallb]. intros [Ha Hc]%andb_prop. apply negb_true_iff in Ha.
  change (replace_all repl seen 0 ((a :: c) ++ rest)) with
    (if starts_with PLACEHOLDER (a :: c ++ rest) then
       substitution PLACEHOLDER (rev seen)
         (drop (length PLACEHOLDER) (a :: c ++ rest)) repl
       ++ replace_all repl (a :: seen) (length PLACEHOLDER - 1) (c ++ rest)
     else a :: replace_all repl (a :: seen) 0 (c ++ rest)).
  assert (starts_with PLACEHOLDER (a :: c ++ rest) = false) as ->
    by (by apply (starts_with_head "{"%char (tail PLACEHOLDER) a)).
  rewrite IH by done. cbn [rev]. by rewrite <- app_assoc.
Qed.

Lemma replace_all_skip repl seen x rest :
  replace_all repl seen (length x) (x ++ rest)
  = replace_all repl (rev x ++ seen) 0 rest.
Proof.
  revert seen. induction x as [|a x IH]; intros seen.
  - by destruct rest.
  - cbn [length app replace_all]. rewrite IH. cbn [rev].
    by rewrite <- app_assoc.
Qed.

Lemma replace_all_hit repl seen rest :
  replace_all repl seen 0 (PLACEHOLDER ++ rest)
  = substitution PLACEHOLDER (rev seen) rest repl
    ++ replace_all repl (rev PLACEHOLDER ++ seen) 0 rest.
Proof.
  pose proof (replace_all_skip repl ("{"%char :: seen) (tail PLACEHOLDER) rest)
    as Hskip.
  change (replace_all repl seen 0 (PLACEHOLDER ++ rest)) with
    (if starts_with PLACEHOLDER (PLACEHOLDER ++ rest) then
       substitution PLACEHOLDER (rev seen)
         (drop (length PLACEHOLDER) (PLACEHOLDER ++ rest)) repl
       ++ replace_all repl ("{"%char :: seen) (length (tail PLACEHOLDER))
            (tail PLACEHOLDER ++ rest)
     else "{"%char :: replace_all repl ("{"%char :: seen) 0
                        (tail PLACEHOLDER ++ rest)).
  rewrite starts_with_self_app, drop_app_length, Hskip.
  reflexivity.
Qed.

Lemma replace_all_chunks repl seen (cs : list jstr) :
  forallb (fun a => negb (ch_eqb a "$")) repl = true ->
  Forall (fun c => forallb (fun a => negb (ch_eqb "{" a)) c = true) cs ->
  replace_all repl seen 0 (concat ((fun c => PLACEHOLDER ++ c) <$> cs))
  = concat ((fun c => repl ++ c) <$> cs).
Proof.
  intros Hrepl Hcs. revert seen.
  induction Hcs as [|c cs Hc _ IH]; intros seen; [done|].
  rewrite !fmap_cons. cbn [concat]. rewrite <- !app_assoc.
  rewrite replace_all_hit, substitution_plain by done.
  rewrite replace_all_chunk by done. by rewrite IH.
Qed.
End Substitution.

(** X20. The statement sent to create a session is the conditional drop,
    a line feed, and the statement of the template in which every
    occurrence of [{sessionName}] is replaced by the session name and
    every other character is kept: this holds for a template cut at its
    placeholders into pieces without [{], and a session name without
    [$]. *)
Theorem create_statement_substitutes_the_name
    (sessionName : jstr) (template : ProfilerSessionTemplate) (azure : bool)
    (c0 : jstr) (cs : list jstr) :
  forallb (fun a => negb (ch_eqb a "$")) sessionName = true ->
  Forall (fun c => forallb (fun a => negb (ch_eqb "{" a)) c = true) (c0 :: cs) ->
  createStatement template
  = c0 ++ concat ((fun c => PLACEHOLDER ++ c) <$> cs) ->
  buildCreateSessionSql sessionName template azure
  = dropIfExists sessionName azure ++ [nl]
    ++ c0 ++ concat ((fun c => sessionName ++ c) <$> cs).
Proof.
  intros Hname Hcs Htpl. unfold buildCreateSessionSql. rewrite Htpl.
  apply Forall_cons in Hcs as [Hc0 Hcs].
  rewrite replace_all_chunk by done. by rewrite replace_all_chunks.
Qed.

Lemma create_statement_witness :
  buildCreateSessionSql (lit "trace1") MoreExamples.two_places false
  = dropIfExists (lit "trace1") false ++ [nl]
    ++ lit "CREATE EVENT SESSION ["
    ++ concat ((fun c => lit "trace1" ++ c)
                 <$> [lit "] ON SERVER ADD EVENT sqlserver.sql_batch_completed -- ";
                      lit " ;"]).
Proof.
  apply (create_statement_substitutes_the_name (lit "trace1")
           MoreExamples.two_places false (lit "CREATE EVENT SESSION [")
           [lit "] ON SERVER ADD EVENT sqlserver.sql_batch_completed -- ";
            lit " ;"]).
  - vm_compute. reflexivity.
  - repeat (apply Forall_cons; split; [vm_compute; reflexivity|]).
    by apply Forall_nil.
  - vm_compute. reflexivity.
Defined.

Lemma createSession_registered
    (remote : list jstr -> ConnectionInfo -> jstr -> QueryResult)
    (catalog : list jstr -> ConnectionInfo -> option (option (list (Z * jstr))))
    (now : Z) (conn : ConnectionInfo) (n : jstr)
    (tpl : ProfilerSessionTemplate) (sv : Service) :
  is_Some (activeSessions sv !! n) ->
  createSession remote catalog now conn n tpl sv
  = (CreateThrown (lit "Session '" ++ n ++ lit "' already exists"), sv).
Proof. intros [s Hs]. unfold createSession. by rewrite Hs. Qed.

(** X21. Session names are unique. Creating a session under a name that is
    registered fails with [Session '<name>' already exists]; nothing is
    sent to the engine and the service is as before. A creation that
    returns a session was given a free name and registers the session it
    returns, so that any further creation under that name, whatever the
    connection, the template and the replies of the engine, is refused in
    this way. *)
Theorem create_refuses_a_registered_name
    (remote : list jstr -> ConnectionInfo -> jstr -> QueryResult)
    (catalog : list jstr -> ConnectionInfo -> option (option (list (Z * jstr))))
    (now : Z) (conn : ConnectionInfo) (n : jstr)
    (tpl : ProfilerSessionTemplate) (sv : Service) :
  (is_Some (activeSessions sv !! n) ->
   createSession remote catalog now conn n tpl sv
   = (CreateThrown (lit "Session '" ++ n ++ lit "' already exists"), sv))
  /\ (forall session remote' catalog' now' conn' tpl',
       (createSession remote catalog now conn n tpl sv).1 = CreateDone session ->
       activeSessions sv !! n = None
       /\ getSession n (createSession remote catalog now conn n tpl sv).2
          = Some session
       /\ createSession remote' catalog' now' conn' n tpl'
            (createSession remote catalog now conn n tpl sv).2
          = (CreateThrown (lit "Session '" ++ n ++ lit "' already exists"),
             (createSession remote catalog now conn n tpl sv).2)).
Proof.
  split; [apply createSession_registered|].
  intros session remote' catalog' now' conn' tpl' Hdone.
  assert (activeSessions sv !! n = None
          /\ getSession n (createSession remote catalog now conn n tpl sv).2
             = Some session) as [Hfree Hreg].
  { revert Hdone. unfold createSession, executeQuery, fetchDatabaseList, getSession.
    destruct (activeSessions sv !! n); [done|].
    destruct (remote _ _ _); [done|]. cbn [fst snd].
    intros [= <-]. split; [done|].
    cbn [activeSessions with_sessions]. by rewrite lookup_insert_eq. }
  split_and!; [done..|].
  apply createSession_registered. by exists session.
Qed.

Lemma create_refuses_a_registered_name_witness :
  createSession Examples.engine_up MoreExamples.catalog_two 0
    Examples.local_server (lit "s1") Examples.standard Examples.running_service
  = (CreateThrown (lit "Session '" ++ lit "s1" ++ lit "' already exists"),
     Examples.running_service).
Proof.
  refine (proj1 (create_refuses_a_registered_name Examples.engine_up
                   MoreExamples.catalog_two 0 Examples.local_server (lit "s1")
                   Examples.standard Examples.running_service) _).
  exists (Examples.session_in Running Examples.kept).
  vm_compute. reflexivity.
Defined.

(** X22. Creating a session under a free name sends the create statement.
    If the engine refuses it, the call fails with the cause and the
    registry is as before. If the engine accepts it, the catalog query is
    sent next and the call returns a session that is registered under its
    name, Stopped, without events, with the connection and the template
    given; the other sessions are as before; a catalog query that fails is
    not fatal and gives an empty lookup table. Polling is not touched in
    either case. *)
Theorem create_registers_a_stopped_session
    (remote : list jstr -> ConnectionInfo -> jstr -> QueryResult)
    (catalog : list jstr -> ConnectionInfo -> option (option (list (Z * jstr))))
    (now : Z) (conn : ConnectionInfo) (n : jstr)
    (tpl : ProfilerSessionTemplate) (sv : Service) :
  activeSessions sv !! n = None ->
  let createSql := buildCreateSessionSql n tpl (isAzure conn) in
  let r := createSession remote catalog now conn n tpl sv in
  pollingIntervals r.2 = pollingIntervals sv /\ timers r.2 = timers sv
  /\ match remote (sent sv) conn createSql with
     | QueryFailed m =>
         r.1 = CreateThrown (lit "Failed to create profiler session: "
                             ++ message_of m)
         /\ activeSessions r.2 = activeSessions sv
         /\ sent r.2 = sent sv ++ [createSql]
     | QueryDone _ =>
         exists session,
           r.1 = CreateDone session
           /\ activeSessions r.2 = <[n := session]> (activeSessions sv)
           /\ sent r.2 = sent sv ++ [createSql; catalogSql]
           /\ session_name session = n /\ state session = Stopped
           /\ events session = [] /\ connection session = conn
           /\ template session = tpl
           /\ (catalog (sent sv ++ [createSql]) conn = None ->
               databaseLookup session = ∅)
     end.
Proof.
  intros Hn. cbv zeta. unfold createSession, executeQuery. rewrite Hn.
  destruct (remote _ _ _); cbn [fst snd]; [done|].
  split; [done|]. split; [done|]. eexists. split; [reflexivity|].
  cbn. split_and!; try done.
  - by rewrite <- app_assoc.
  - by intros ->.
Qed.

Lemma create_registers_witness :
  pollingIntervals
    (createSession Examples.engine_up MoreExamples.catalog_two 0
       Examples.local_server (lit "s2") Examples.standard
       Examples.running_service).2
  = pollingIntervals Examples.running_service.
Proof.
  refine (proj1 (create_registers_a_stopped_session Examples.engine_up
                   MoreExamples.catalog_two 0 Examples.local_server (lit "s2")
                   Examples.standard Examples.running_service _)).
  vm_compute. reflexivity.
Defined.

(** ** Parser: the fields of an event *)

Section FieldPatterns.
Import Fields.
Implicit Types (f : field) (fs : list field) (k : field_kind) (y z t : jstr).

Lemma pattern_of_eq k :
  pattern_of k
  = [ Lit (open_of k); Plus true NotQuote; Lit [dq];
      LazyStar false NotGt; Lit (lit ">");
      LazyStar false AnyChar; Lit VALUE;
      LazyStar true AnyChar; Lit VALUE_END ].
Proof. by destruct k. Qed.

Lemma field_ok_facts f :
  field_ok f = true ->
  Markup.attr_value (f_name f) = true /\ Markup.tag_text (f_attrs f) = true
  /\ includes VALUE (f_pre f) = false
  /\ includes VALUE_END (f_value f) = false
  /\ forall k, includes (open_of k) (tail (render_field f)) = false.
Proof.
  unfold field_ok. intros H.
  repeat match goal with
    | H : _ && _ = true |- _ => apply andb_prop in H as [? ?]
    | H : negb _ = true |- _ => apply negb_true_iff in H
    end.
  split_and!; try done. by intros [].
Qed.

Lemma render_field_split f :
  render_field f = matched_text f ++ f_post f ++ close_of (f_kind f).
Proof. unfold render_field, matched_text. by rewrite <- !app_assoc. Qed.

Lemma matched_text_cons f : exists x, matched_text f = "<"%char :: x.
Proof. unfold matched_text. destruct (f_kind f); by eexists. Qed.

Lemma render_field_opens f y : Markup.opens (render_field f ++ y) = true.
Proof. unfold render_field. by destruct (f_kind f). Qed.

Lemma straddles_open_of k y :
  Markup.opens y = true -> Markup.straddles (open_of k) y = false.
Proof.
  destruct y as [|c y]; [by destruct k|]. unfold Markup.opens.
  intros <-%ch_eqb_eq. by destruct k.
Qed.

(** On a field of its kind the pattern matches up to the end of the value
    element and captures the name and the value. *)
Lemma field_pattern_hit f z :
  field_ok f = true ->
  rmatch (pattern_of (f_kind f)) (matched_text f ++ z)
  = Some ([f_name f; f_value f], z).
Proof.
  intros Hok. destruct (field_ok_facts f Hok) as (Hn & Ha & Hpre & Hval & _).
  rewrite pattern_of_eq. unfold matched_text. repeat rewrite <- app_assoc.
  assert (rmatch [LazyStar true AnyChar; Lit VALUE_END]
            (f_value f ++ VALUE_END ++ z) = Some ([f_value f], z)) as K3.
  { apply (rmatch_lazy_hit true AnyChar [Lit VALUE_END] _ _ [] z).
    - apply forallb_any.
    - intros t Hne Hsuf. apply rmatch_lit_miss.
      by apply (no_straddle VALUE_END (f_value f)).
    - by rewrite rmatch_lit. }
  assert (rmatch [LazyStar false AnyChar; Lit VALUE;
                  LazyStar true AnyChar; Lit VALUE_END]
            (f_pre f ++ VALUE ++ f_value f ++ VALUE_END ++ z)
          = Some ([f_value f], z)) as K2.
  { apply (rmatch_lazy_hit false AnyChar _ _ _ [f_value f] z).
    - apply forallb_any.
    - intros t Hne Hsuf. apply rmatch_lit_miss.
      by apply (no_straddle VALUE (f_pre f)).
    - by rewrite rmatch_lit. }
  assert (rmatch [LazyStar false NotGt; Lit (lit ">");
                  LazyStar false AnyChar; Lit VALUE;
                  LazyStar true AnyChar; Lit VALUE_END]
            (f_attrs f ++ lit ">" ++ f_pre f ++ VALUE ++ f_value f
             ++ VALUE_END ++ z)
          = Some ([f_value f], z)) as K1.
  { apply (rmatch_lazy_hit false NotGt _ _ _ [f_value f] z).
    - exact Ha.
    - intros t Hne [pre Hpre']. apply rmatch_lit_miss.
      destruct t as [|a t]; [done|].
      apply (starts_with_head ">"%char [] a).
      rewrite Hpre' in Ha. by eapply tag_text_head.
    - by rewrite rmatch_lit. }
  rewrite rmatch_lit. change ([dq] ++ ?x) with (dq :: x).
  rewrite rmatch_quoted by done. by rewrite K1.
Qed.

Lemma field_pattern_other f k z :
  f_kind f <> k -> rmatch (pattern_of k) (render_field f ++ z) = None.
Proof.
  intros Hk. rewrite pattern_of_eq. apply rmatch_lit_miss.
  unfold render_field. by destruct k, (f_kind f).
Qed.

Lemma field_pattern_inside f k y t :
  field_ok f = true -> Markup.opens y = true ->
  t <> [] -> t `suffix_of` tail (render_field f) ->
  rmatch (pattern_of k) (t ++ y) = None.
Proof.
  intros Hok Hy Ht Hsuf. destruct (field_ok_facts f Hok) as (_ & _ & _ & _ & Hin).
  rewrite pattern_of_eq. apply rmatch_lit_miss.
  eapply no_straddle; [apply Hin|by apply straddles_open_of|done|done].
Qed.

Lemma scan_field f k y :
  field_ok f = true -> Markup.opens y = true ->
  scan (pattern_of k) 0 (render_field f ++ y)
  = (if decide (f_kind f = k) then [field_hit f] else [])
    ++ scan (pattern_of k) 0 y.
Proof.
  intros Hok Hy. destruct (matched_text_cons f) as [x Hx].
  destruct (decide (f_kind f = k)) as [<-|Hk].
  - rewrite render_field_split, <- app_assoc.
    rewrite (scan_hit _ (matched_text f) _ [f_name f; f_value f]).
    + simpl. f_equal. apply scan_miss. intros t Ht Hsuf.
      apply (field_pattern_inside f); [done..|].
      rewrite render_field_split, Hx. simpl. by apply suffix_app_r.
    + by rewrite Hx.
    + by apply field_pattern_hit.
  - simpl. apply scan_miss. intros t Ht Hsuf.
    assert (exists x', render_field f = "<"%char :: x') as [x' Hx'].
    { rewrite render_field_split, Hx. by eexists. }
    rewrite Hx' in Hsuf. destruct t as [|c t]; [done|].
    apply suffix_cons_inv in Hsuf as [[= -> ->]|Hsuf].
    + rewrite <- Hx'. by apply field_pattern_other.
    + apply (field_pattern_inside f); [done..|]. by rewrite Hx'.
Qed.

Lemma fields_opens fs y :
  Markup.opens y = true ->
  Markup.opens (concat (render_field <$> fs) ++ y) = true.
Proof.
  intros Hy. destruct fs as [|f fs]; [done|].
  rewrite fmap_cons. cbn [concat]. rewrite <- app_assoc.
  apply render_field_opens.
Qed.

Lemma scan_fields fs k y :
  forallb field_ok fs = true -> Markup.opens y = true ->
  scan (pattern_of k) 0 (concat (render_field <$> fs) ++ y)
  = (field_hit <$> of_kind k fs) ++ scan (pattern_of k) 0 y.
Proof.
  intros Hfs Hy. induction fs as [|f fs IH]; [done|].
  cbn [forallb] in Hfs. apply andb_prop in Hfs as [Hf Hfs].
  rewrite fmap_cons. cbn [concat]. rewrite <- app_assoc.
  rewrite scan_field; [|done|by apply fields_opens].
  rewrite IH by done. unfold of_kind. rewrite filter_cons.
  by destruct (decide (f_kind f = k)).
Qed.

Lemma store_fields_hits fs (o : gmap jstr jstr) :
  store_fields (field_hit <$> fs) o = field_values fs o.
Proof.
  unfold store_fields, field_values. revert o.
  induction fs as [|f fs IH]; intros o; [done|].
  rewrite fmap_cons. cbn [fold_left]. by rewrite IH.
Qed.

Lemma includes_intro (p x y : jstr) : includes p (x ++ p ++ y) = true.
Proof.
  induction x as [|a x IH].
  - destruct (p ++ y) eqn:E; simpl.
    + destruct p; [done|done].
    + rewrite <- E. by rewrite starts_with_self_app.
  - simpl. rewrite IH. apply orb_true_r.
Qed.

Lemma textRe_needs_text (s : jstr) caps rest :
  rmatch textRe s = Some (caps, rest) -> includes TEXT s = true.
Proof.
  intros H. apply rmatch_sound in H as (m & -> & Hden).
  unfold textRe in Hden. cbn [denotes] in Hden.
  destruct Hden as (m1 & -> & w & m2 & c2 & -> & _ & _ & Hden & _).
  destruct Hden as (m3 & -> & w2 & m4 & c4 & -> & _ & Hden & _).
  destruct Hden as (m5 & -> & w3 & m6 & c6 & -> & _ & Hden & _).
  destruct Hden as (m7 & -> & _).
  rewrite <- !app_assoc.
  repeat rewrite (app_assoc _ _ (TEXT ++ _)).
  change (["<"; "t"; "e"; "x"; "t"; ">"]%char) with TEXT.
  apply includes_intro.
Qed.

Lemma matchAll_text_none (s : jstr) :
  includes TEXT s = false -> matchAll textRe s = [].
Proof.
  intros Hs. destruct (matchAll textRe s) as [|mm ms] eqn:E; [done|].
  assert (mm ∈ scan textRe 0 s) as Hin by (unfold matchAll in E; rewrite E; left).
  apply scan_sound in Hin as (pre & s' & -> & Hat).
  unfold match_at in Hat.
  destruct (rmatch textRe s') as [[caps rest]|] eqn:Hr; [|done].
  apply textRe_needs_text in Hr. apply includes_app_r in Hs. congruence.
Qed.
End FieldPatterns.

Section FieldedEvents.
Import Fields.
Implicit Types (e : Markup.element) (fs : list field) (k : field_kind).

Lemma fielded_facts e fs :
  fielded e fs = true ->
  Markup.el_body e = concat (render_field <$> fs)
  /\ forallb field_ok fs = true
  /\ (forall k, includes (open_of k) (opening_tag e) = false)
  /\ includes TEXT (Markup.render e) = false.
Proof.
  unfold fielded. intros H.
  repeat match goal with
    | H : _ && _ = true |- _ => apply andb_prop in H as [? ?]
    | H : negb _ = true |- _ => apply negb_true_iff in H
    | H : bool_decide _ = true |- _ => apply bool_decide_eq_true in H
    end.
  split_and!; try done. by intros [].
Qed.

Lemma render_fielded e fs :
  Markup.shape_of e = Markup.NameFirst -> fielded e fs = true ->
  Markup.render e
  = opening_tag e ++ concat (render_field <$> fs) ++ CLOSE.
Proof.
  intros Hs (Hb & _)%fielded_facts. unfold Markup.render, opening_tag.
  rewrite Hs, Hb. by repeat rewrite <- app_assoc.
Qed.

Lemma matchAll_fields e fs k :
  Markup.shape_of e = Markup.NameFirst -> fielded e fs = true ->
  matchAll (pattern_of k) (Markup.render e) = field_hit <$> of_kind k fs.
Proof.
  intros Hs Hf. rewrite (render_fielded e fs) by done.
  destruct (fielded_facts e fs Hf) as (_ & Hfs & Hopen & _).
  unfold matchAll. rewrite scan_miss.
  - rewrite scan_fields by done.
    replace (scan (pattern_of k) 0 CLOSE) with (@nil (list jstr))
      by (by destruct k).
    apply app_nil_r.
  - intros t Ht Hsuf. rewrite pattern_of_eq. apply rmatch_lit_miss.
    eapply no_straddle; [apply Hopen| |done|done].
    by apply straddles_open_of, fields_opens.
Qed.

(** The event built from a recognised element whose body is a sequence of
    fields. *)
Lemma parse_event_fielded lookup e fs :
  Markup.well_formed e = true -> Markup.shape_of e = Markup.NameFirst ->
  fielded e fs = true ->
  parse_event lookup (Markup.render e) = Some (event_of lookup (e, fs)).
Proof.
  intros Hwf Hs Hf.
  destruct (parse_event_name_first lookup e Hwf Hs) as [v Hpe].
  rewrite Hpe. f_equal.
  apply parse_event_inv in Hpe as (nm & tm & _ & _ & _ & _ & Hv).
  cbn [values] in Hv. unfold event_of. cbn [fst snd]. f_equal.
  rewrite Hv.
  rewrite (matchAll_fields e fs DataField Hs Hf : matchAll dataRe _ = _).
  rewrite (matchAll_fields e fs ActionField Hs Hf : matchAll actionRe _ = _).
  rewrite matchAll_text_none by (by apply (fielded_facts e fs)).
  by rewrite !store_fields_hits.
Qed.

Lemma parse_items pre (items : list (Markup.element * list field)) lookup :
  includes OPEN pre = false ->
  Forall (fun it => item_ok it = true) items ->
  parseXEventData (Markup.payload_of pre (fst <$> items)) lookup
  = event_of lookup <$> filter (fun it => Markup.recognised it.1 = true) items.
Proof.
  intros Hpre Hitems. rewrite parseXEventData_unfold.
  rewrite matchAll_payload; [|done|].
  2:{ apply Forall_fmap. eapply Forall_impl; [exact Hitems|].
      intros it Hit. unfold item_ok in Hit.
      by apply andb_prop in Hit as [? _]. }
  induction Hitems as [|[e fs] items Hit _ IH]; [done|].
  rewrite fmap_cons, !filter_cons. cbn [fst].
  unfold item_ok in Hit. cbn [fst snd] in Hit.
  apply andb_prop in Hit as [Hwf Hit].
  destruct (Markup.recognised e) eqn:Hr.
  - rewrite !decide_True by done. rewrite !fmap_cons.
    cbn [omap]. simpl in Hit.
    assert (hd [] (Markup.hit e) = Markup.render e) as -> by done.
    apply bool_decide_eq_true in Hr.
    change (list_omap _ _ ?g (?x :: ?l)) with
      (match g x with Some y => y :: omap g l | None => omap g l end).
    rewrite (parse_event_fielded lookup e fs) by done.
    by rewrite IH.
  - rewrite !decide_False by done. apply IH.
Qed.
End FieldedEvents.

(** *** C7 *)






Section FieldValues.
Import Fields.
Implicit Types (f : field) (fs : list field) (k : jstr).

Lemma field_values_lookup fs (o : gmap jstr jstr) k :
  k <> lit "__proto__" ->
  field_values fs o !! k
  = match last (filter (fun f => f_name f = k) fs) with
    | Some f => Some (trim (f_value f))
    | None => o !! k
    end.
Proof.
  intros Hk. unfold field_values.
  induction fs as [|f fs IH] using rev_ind; [done|].
  rewrite fold_left_app, filter_app. cbn [fold_left].
  rewrite assign_lookup, filter_cons, filter_nil.
  destruct (decide (f_name f = k)) as [Hf|Hf].
  - rewrite last_snoc. rewrite decide_False by congruence. done.
  - rewrite app_nil_r. by destruct (decide (f_name f = lit "__proto__")).
Qed.

Lemma no_field_named fs k kd :
  Forall (fun f => f_name f <> k) fs ->
  filter (fun f => f_name f = k) (of_kind kd fs) = [].
Proof.
  intros Hfs. apply filter_none. intros f Hf.
  unfold of_kind in Hf. apply list_elem_of_filter in Hf as [_ Hf].
  by apply (proj1 (Forall_forall _ _) Hfs).
Qed.

Lemma parsed_item pre (items : list (Markup.element * list field)) lookup i it :
  includes OPEN pre = false ->
  Forall (fun it => item_ok it = true) items ->
  filter (fun it => Markup.recognised it.1 = true) items !! i = Some it ->
  parseXEventData (Markup.payload_of pre (fst <$> items)) lookup !! i
  = Some (event_of lookup it).
Proof.
  intros Hpre Hitems Hi. rewrite parse_items by done.
  by rewrite list_lookup_fmap, Hi.
Qed.
End FieldValues.

(** X23. The parser on a payload of event elements whose bodies are
    sequences of data and action fields (each with a name attribute and a
    value element, possibly with other text around the value, and without
    text sub-values), with any text before and between the elements that
    contains no event opening tag: the result has one event for each
    element that has its name attribute first and a timestamp attribute,
    in the order of the payload, with the name and the timestamp of the
    element; its values are the trimmed values of the data fields stored
    in order under their names, then those of the action fields, then the
    database name filled in from the lookup table. Elements of the other
    shapes give nothing. *)
Theorem fielded_payload_parses_to_its_fields
    (pre : jstr) (items : list (Markup.element * list Fields.field))
    (lookup : gmap Z jstr) :
  includes OPEN pre = false ->
  Forall (fun it => Fields.item_ok it = true) items ->
  parseXEventData (Markup.payload_of pre (fst <$> items)) lookup
  = Fields.event_of lookup
    <$> filter (fun it => Markup.recognised it.1 = true) items.
Proof. apply parse_items. Qed.

Lemma fielded_payload_witness :
  parseXEventData
    (Markup.payload_of Examples.ring_open (fst <$> FieldExamples.fielded_items))
    FieldExamples.lookup_two
  = Fields.event_of FieldExamples.lookup_two
    <$> filter (fun it => Markup.recognised it.1 = true)
          FieldExamples.fielded_items.
Proof.
  apply (fielded_payload_parses_to_its_fields Examples.ring_open
           FieldExamples.fielded_items FieldExamples.lookup_two).
  - vm_compute. reflexivity.
  - repeat (apply Forall_cons; split; [vm_compute; reflexivity|]).
    by apply Forall_nil.
Defined.

(** X24. Which field an extracted value comes from. For the i-th
    recognised element of such a payload and a key other than
    [database_name] and [__proto__]: the value of the i-th event under the
    key is the trimmed value of the last action field of that name; if
    there is no such action field, that of the last data field of that
    name; if there is none either, the key is absent. So an action
    overrides a data field of the same name wherever the two stand in the
    element. *)
Theorem action_fields_override_data_fields
    (pre : jstr) (items : list (Markup.element * list Fields.field))
    (lookup : gmap Z jstr) (i : nat) (e : Markup.element)
    (fs : list Fields.field) (k : jstr) :
  includes OPEN pre = false ->
  Forall (fun it => Fields.item_ok it = true) items ->
  filter (fun it => Markup.recognised it.1 = true) items !! i = Some (e, fs) ->
  k <> lit "__proto__" -> k <> lit "database_name" ->
  exists ev,
    parseXEventData (Markup.payload_of pre (fst <$> items)) lookup !! i = Some ev
    /\ name ev = Markup.el_name e /\ timestamp ev = Markup.el_timestamp e
    /\ values ev !! k
       = match last (filter (fun f => Fields.f_name f = k)
                       (Fields.of_kind Fields.ActionField fs)) with
         | Some f => Some (trim (Fields.f_value f))
         | None =>
             match last (filter (fun f => Fields.f_name f = k)
                           (Fields.of_kind Fields.DataField fs)) with
             | Some f => Some (trim (Fields.f_value f))
             | None => None
             end
         end.
Proof.
  intros Hpre Hitems Hi Hk Hdb. eexists. split; [by apply parsed_item|].
  split; [done|]. split; [done|].
  unfold Fields.event_of. cbn [values fst snd].
  rewrite resolve_database_other by done.
  rewrite !field_values_lookup by done. by rewrite lookup_empty.
Qed.

Lemma action_fields_override_witness :
  exists ev,
    parseXEventData
      (Markup.payload_of Examples.ring_open
         (fst <$> FieldExamples.fielded_items))
      FieldExamples.lookup_two !! 0%nat = Some ev
    /\ name ev = lit "sql_batch_completed" /\ timestamp ev = Examples.t1
    /\ values ev !! lit "database_id" = Some (lit "5").
Proof.
  apply (action_fields_override_data_fields Examples.ring_open
           FieldExamples.fielded_items FieldExamples.lookup_two 0
           FieldExamples.fielded_element FieldExamples.batch_fields
           (lit "database_id")).
  - vm_compute. reflexivity.
  - repeat (apply Forall_cons; split; [vm_compute; reflexivity|]).
    by apply Forall_nil.
  - vm_compute. reflexivity.
  - vm_compute. discriminate.
  - vm_compute. discriminate.
Defined.

(** X25. The database name of an event is looked up from its database id.
    For the i-th recognised element of such a payload, with no field named
    [database_name] and with a last action field named [database_id] whose
    trimmed value [parseInt] reads as the number [dbId] (the integer
    written, or the double nearest to it when it is too long for a double
    to hold): the value of the i-th event under [database_name] is the
    entry of the lookup table for [dbId], and the key is absent when the
    table has no such entry. *)
Theorem database_name_comes_from_the_lookup
    (pre : jstr) (items : list (Markup.element * list Fields.field))
    (lookup : gmap Z jstr) (i : nat) (e : Markup.element)
    (fs : list Fields.field) (f : Fields.field) (dbId : Z) :
  includes OPEN pre = false ->
  Forall (fun it => Fields.item_ok it = true) items ->
  filter (fun it => Markup.recognised it.1 = true) items !! i = Some (e, fs) ->
  Forall (fun f => Fields.f_name f <> lit "database_name") fs ->
  last (filter (fun f => Fields.f_name f = lit "database_id")
          (Fields.of_kind Fields.ActionField fs)) = Some f ->
  parseInt (trim (Fields.f_value f)) = Num dbId ->
  exists ev,
    parseXEventData (Markup.payload_of pre (fst <$> items)) lookup !! i = Some ev
    /\ values ev !! lit "database_name" = lookup !! dbId
    /\ values ev !! lit "database_id" = Some (trim (Fields.f_value f)).
Proof.
  intros Hpre Hitems Hi Hno Hf Hid. eexists. split; [by apply parsed_item|].
  unfold Fields.event_of. cbn [values fst snd].
  set (o := Fields.field_values _ _).
  assert (o !! lit "database_name" = None) as Hname.
  { unfold o. rewrite !field_values_lookup by done.
    by rewrite !no_field_named, lookup_empty by done. }
  assert (o !! lit "database_id" = Some (trim (Fields.f_value f))) as Hdid.
  { unfold o. rewrite field_values_lookup by done. by rewrite Hf. }
  split; [|by rewrite resolve_database_other].
  unfold resolve_database. rewrite Hname, Hdid. cbn [truthy negb andb default].
  destruct (trim (Fields.f_value f)) as [|c v] eqn:Hv; [done|].
  cbn [truthy]. change (Datatypes.id (c :: v)) with (c :: v).
  rewrite Hid.
  destruct (lookup !! dbId) as [nm|]; [|done].
  rewrite assign_lookup. by repeat case_decide.
Qed.

Lemma database_name_witness :
  exists ev,
    parseXEventData
      (Markup.payload_of Examples.ring_open
         (fst <$> FieldExamples.fielded_items))
      FieldExamples.lookup_two !! 0%nat = Some ev
    /\ values ev !! lit "database_name" = FieldExamples.lookup_two !! 5%Z
    /\ values ev !! lit "database_id" = Some (lit "5").
Proof.
  apply (database_name_comes_from_the_lookup Examples.ring_open
           FieldExamples.fielded_items FieldExamples.lookup_two 0
           FieldExamples.fielded_element FieldExamples.batch_fields
           FieldExamples.id_action 5).
  - vm_compute. reflexivity.
  - repeat (apply Forall_cons; split; [vm_compute; reflexivity|]).
    by apply Forall_nil.
  - vm_compute. reflexivity.
  - repeat (apply Forall_cons; split; [vm_compute; discriminate|]).
    by apply Forall_nil.
  - vm_compute. reflexivity.
  - vm_compute. reflexivity.
Defined.

(** An id too long for a double is looked up under the double nearest to
    it: 2^53 + 1 reads as 2^53. *)
Example long_database_id_is_rounded :
  parseInt (lit "9007199254740993") = Num 9007199254740992
  /\ (fun ev => values ev !! lit "database_name")
       <$> parseXEventData FieldExamples.ring_long_id
             {[ 9007199254740992%Z := lit "Big" ]}
     = [Some (lit "Big")]
  /\ (fun ev => values ev !! lit "database_name")
       <$> parseXEventData FieldExamples.ring_long_id
             {[ 9007199254740993%Z := lit "Big" ]}
     = [None].
Proof. split_and!; vm_compute; exact eq_refl. Qed.

